(** * my-3d-game: per-frame player movement and platform synchronisation

    A shallow embedding of the bespoke logic of [src/App.tsx] (the
    discrete-button build) and of its analog-joystick sibling: the
    [useFrame] callback of [Player], the [useFrame] callback of
    [MovingPlatform], and the scene construction in [App].

    Numbers.  A JavaScript [number] is read as a real number: [+], [-],
    [*], [/], [Math.abs], [Math.sqrt], [Math.sin] and [Math.cos] are the
    operations of [R], and [Math.round] is [floor (x + 1/2)], which is
    what ECMAScript prescribes (ties go up).  Rounding error, [NaN],
    infinities and the sign of zero are outside this model.  The value of
    [Math.round] is kept as a [Z]; it is the key of the velocity table. *)

From Stdlib Require Import Reals Lra Lia ZArith List Bool.
From stdpp Require Import base option gmap.
Import ListNotations.

Open Scope R_scope.

(** ** JavaScript numbers and [Math] *)

Module Js.

(** [x < y] and [x > y] as the booleans a conditional tests. *)
Definition lt (x y : R) : bool := if Rlt_dec x y then true else false.
Definition gt (x y : R) : bool := lt y x.

(** [x !== 0]. *)
Definition neq0 (x : R) : bool := if Req_dec_T x 0 then false else true.

(** [b ? 1 : 0] and friends: a flag read as a number. *)
Definition cond (b : bool) (x y : R) : R := if b then x else y.

Definition Math_abs (x : R) : R := Rabs x.
Definition Math_sqrt (x : R) : R := sqrt x.
Definition Math_sin (x : R) : R := sin x.
Definition Math_cos (x : R) : R := cos x.

(** [Math.round x]: the integer [n] with [n - 1/2 <= x < n + 1/2]. *)
Definition Math_round (x : R) : Z := Int_part (x + / 2).

End Js.

Infix "<?" := Js.lt (at level 70, no associativity) : R_scope.
Infix ">?" := Js.gt (at level 70, no associativity) : R_scope.

(** ** Data model *)

(** A three-element number array, read with [[0]], [[1]], [[2]]. *)
Record vec3 : Type := V3 { at0 : R; at1 : R; at2 : R }.

(** [new Map<number, number>()]: platform index to current X velocity. *)
Abbreviation table := (gmap Z R).

(** [platformsMap.get(index) || 0]. *)
Definition get_or_0 (platformsMap : table) (index : Z) : R :=
  default 0 (platformsMap !! index).

(** The five flags of [getKeys()] and of [mobileInput]. *)
Record Controls : Type := MkControls {
  forward : bool;
  backward : bool;
  left : bool;
  right : bool;
  jump : bool
}.

(** The refs of [Player]: the last position and velocity received from
    the physics subscriptions, and the jump edge detector. *)
Record Refs : Type := MkRefs {
  pos : vec3;
  vel : vec3;
  wasJumpPressed : bool
}.

(** What a frame tells the physics body, in program order. *)
Inductive ApiCall : Type :=
| position_set (x y z : R)
| velocity_set (x y z : R).

(** [state.camera]: its position and the point it was last aimed at. *)
Record Camera : Type := MkCamera {
  cam_position : vec3;
  cam_lookAt : vec3
}.

(** The effect of one [useFrame] call of [Player]. *)
Record FrameOut : Type := MkFrameOut {
  calls : list ApiCall;
  refs' : Refs;
  camera' : Camera
}.

Definition initialPosition : vec3 := V3 0 5 0.
Definition CAMERA_OFFSET : vec3 := V3 0 5 10.
Definition moveSpeed : R := 6.

(** ** Platform-ride resolution (the same text in both builds) *)

(** [Math.round((pos.current[2] + 10) / -6)]. *)
Definition rideIndex (pz : R) : Z := Js.Math_round ((pz + 10) / -6).

(** [-10 - index * 6]. *)
Definition targetZ (index : Z) : R := -10 - IZR index * 6.

(** [index >= 0 && Math.abs(pos.current[2] - targetZ) < 2.5]. *)
Definition rideAccept (pz : R) : bool :=
  let index := rideIndex pz in
  (0 <=? index)%Z && (Js.Math_abs (pz - targetZ index) <? 2.5).

(** [Math.abs(vel.current[1]) < 0.5]. *)
Definition isGrounded (r : Refs) : bool := Js.Math_abs (at1 (vel r)) <? 0.5.

(** [let extraX = 0; if (isGrounded && pos.current[1] > -0.1) { ... }]. *)
Definition rideExtraX (platformsMap : table) (r : Refs) : R :=
  if isGrounded r && (at1 (pos r) >? -0.1) then
    if rideAccept (at2 (pos r)) then
      get_or_0 platformsMap (rideIndex (at2 (pos r)))
    else 0
  else 0.

(** The platform the resolver settles on, if any. *)
Definition rideMatch (r : Refs) : option Z :=
  if isGrounded r && (at1 (pos r) >? -0.1) && rideAccept (at2 (pos r))
  then Some (rideIndex (at2 (pos r))) else None.

(** ** Camera follow (the same text in both builds) *)

(** [Vector3.lerp(v, alpha)]: each component moves by [alpha] of the gap. *)
Definition lerp (p v : vec3) (alpha : R) : vec3 :=
  V3 (at0 p + (at0 v - at0 p) * alpha)
     (at1 p + (at1 v - at1 p) * alpha)
     (at2 p + (at2 v - at2 p) * alpha).

(** [state.camera.position.lerp(targetCameraPos, 0.1)] followed by
    [state.camera.lookAt(pos.current[0], pos.current[1], pos.current[2])]. *)
Definition followCamera (r : Refs) (cam : Camera) : Camera :=
  let targetCameraPos :=
    V3 (at0 (pos r) + at0 CAMERA_OFFSET)
       (at1 (pos r) + at1 CAMERA_OFFSET)
       (at2 (pos r) + at2 CAMERA_OFFSET) in
  MkCamera (lerp (cam_position cam) targetCameraPos 0.1)
           (V3 (at0 (pos r)) (at1 (pos r)) (at2 (pos r))).

(** ** [Player]'s [useFrame], discrete-button build ([src/App.tsx]) *)

Module Buttons.

Record Input : Type := MkInput {
  keyboard : Controls;
  mobileInput : Controls
}.

(** The directional intent [(dx, dz)] and the jump intent of a frame. *)
Definition intent (i : Input) : R * R :=
  let left_ := left (keyboard i) || left (mobileInput i) in
  let right_ := right (keyboard i) || right (mobileInput i) in
  let forward_ := forward (keyboard i) || forward (mobileInput i) in
  let backward_ := backward (keyboard i) || backward (mobileInput i) in
  (Js.cond left_ (-1) 0 + Js.cond right_ 1 0,
   Js.cond forward_ (-1) 0 + Js.cond backward_ 1 0).

Definition jumpIntent (i : Input) : bool :=
  jump (keyboard i) || jump (mobileInput i).

(** [length > 0 ? (d / length) * moveSpeed : 0], for both components. *)
Definition direction (dx dz : R) : R * R :=
  let length := Js.Math_sqrt (dx * dx + dz * dz) in
  (if length >? 0 then (dx / length) * moveSpeed else 0,
   if length >? 0 then (dz / length) * moveSpeed else 0).

Definition useFrame (i : Input) (platformsMap : table) (r : Refs) (cam : Camera)
  : FrameOut :=
  let keyboard := keyboard i in
  let mobileInput := mobileInput i in
  let forward_ := forward keyboard || forward mobileInput in
  let backward_ := backward keyboard || backward mobileInput in
  let left_ := left keyboard || left mobileInput in
  let right_ := right keyboard || right mobileInput in
  let jump_ := jump keyboard || jump mobileInput in
  let isGrounded := Js.Math_abs (at1 (vel r)) <? 0.5 in
  if at1 (pos r) <? -5 then
    MkFrameOut
      [position_set (at0 initialPosition) (at1 initialPosition) (at2 initialPosition);
       velocity_set 0 0 0]
      r cam
  else
    let dx := Js.cond left_ (-1) 0 + Js.cond right_ 1 0 in
    let dz := Js.cond forward_ (-1) 0 + Js.cond backward_ 1 0 in
    let extraX :=
      if isGrounded && (at1 (pos r) >? -0.1) then
        let index := Js.Math_round ((at2 (pos r) + 10) / -6) in
        let targetZ := -10 - IZR index * 6 in
        if (0 <=? index)%Z && (Js.Math_abs (at2 (pos r) - targetZ) <? 2.5)
        then default 0 (platformsMap !! index)
        else 0
      else 0 in
    let length := Js.Math_sqrt (dx * dx + dz * dz) in
    let directionX := if length >? 0 then (dx / length) * moveSpeed else 0 in
    let directionZ := if length >? 0 then (dz / length) * moveSpeed else 0 in
    let steer := velocity_set (directionX + extraX) (at1 (vel r)) directionZ in
    let jumpCalls :=
      if jump_ && negb (wasJumpPressed r) && isGrounded
      then [velocity_set (at0 (vel r)) 9 (at2 (vel r))]
      else [] in
    MkFrameOut (steer :: jumpCalls)
               (MkRefs (pos r) (vel r) jump_)
               (followCamera r cam).

End Buttons.

(** ** [Player]'s [useFrame], analog-joystick build *)

Module Joystick.

(** [joystickVector = { x, y }]. *)
Record vec2 : Type := V2 { x : R; y : R }.

Record Input : Type := MkInput {
  keyboard : Controls;
  joystickVector : vec2;
  mobileJump_active : bool
}.

(** Keyboard axes [kx], [kz]. *)
Definition keyAxes (k : Controls) : R * R :=
  (Js.cond (left k) (-1) 0 + Js.cond (right k) 1 0,
   Js.cond (forward k) (-1) 0 + Js.cond (backward k) 1 0).

(** The directional intent [(inputX, inputZ)] and the jump intent. *)
Definition intent (i : Input) : R * R :=
  let kx := fst (keyAxes (keyboard i)) in
  let kz := snd (keyAxes (keyboard i)) in
  (if Js.neq0 kx then kx else x (joystickVector i),
   if Js.neq0 kz then kz else y (joystickVector i)).

Definition jumpIntent (i : Input) : bool :=
  jump (keyboard i) || mobileJump_active i.

(** [length > 0 ? (input / (length > 1 ? length : 1)) * moveSpeed : 0]. *)
Definition direction (inputX inputZ : R) : R * R :=
  let length := Js.Math_sqrt (inputX * inputX + inputZ * inputZ) in
  (if length >? 0
   then (inputX / (if length >? 1 then length else 1)) * moveSpeed else 0,
   if length >? 0
   then (inputZ / (if length >? 1 then length else 1)) * moveSpeed else 0).

Definition useFrame (i : Input) (platformsMap : table) (r : Refs) (cam : Camera)
  : FrameOut :=
  let keyboard := keyboard i in
  let joystickVector := joystickVector i in
  let kx := Js.cond (left keyboard) (-1) 0 + Js.cond (right keyboard) 1 0 in
  let kz := Js.cond (forward keyboard) (-1) 0 + Js.cond (backward keyboard) 1 0 in
  let inputX := if Js.neq0 kx then kx else x joystickVector in
  let inputZ := if Js.neq0 kz then kz else y joystickVector in
  let jump_ := jump keyboard || mobileJump_active i in
  let isGrounded := Js.Math_abs (at1 (vel r)) <? 0.5 in
  if at1 (pos r) <? -5 then
    MkFrameOut
      [position_set (at0 initialPosition) (at1 initialPosition) (at2 initialPosition);
       velocity_set 0 0 0]
      r cam
  else
    let extraX :=
      if isGrounded && (at1 (pos r) >? -0.1) then
        let index := Js.Math_round ((at2 (pos r) + 10) / -6) in
        let targetZ := -10 - IZR index * 6 in
        if (0 <=? index)%Z && (Js.Math_abs (at2 (pos r) - targetZ) <? 2.5)
        then default 0 (platformsMap !! index)
        else 0
      else 0 in
    let length := Js.Math_sqrt (inputX * inputX + inputZ * inputZ) in
    let velX :=
      if length >? 0
      then (inputX / (if length >? 1 then length else 1)) * moveSpeed else 0 in
    let velZ :=
      if length >? 0
      then (inputZ / (if length >? 1 then length else 1)) * moveSpeed else 0 in
    let steer := velocity_set (velX + extraX) (at1 (vel r)) velZ in
    let jumpCalls :=
      if jump_ && negb (wasJumpPressed r) && isGrounded
      then [velocity_set (at0 (vel r)) 9 (at2 (vel r))]
      else [] in
    MkFrameOut (steer :: jumpCalls)
               (MkRefs (pos r) (vel r) jump_)
               (followCamera r cam).

End Joystick.

(** ** [MovingPlatform]'s [useFrame] and the scene built by [App] *)

Module Scene.

(** One element of [platforms]. *)
Record PlatformData : Type := MkData {
  position : vec3;
  offset : R;
  range : R;
  speed : R
}.

(** The props [MovingPlatform] receives.  [App] passes [offset], [range]
    and [speed] for every platform, so their defaults are never used. *)
Record Props : Type := MkProps {
  index : Z;
  data : PlatformData
}.

(** [x] as computed in the frame: the platform's X position at clock
    reading [elapsed]. *)
Definition platformX (p : Props) (elapsed : R) : R :=
  let t := elapsed + offset (data p) in
  at0 (position (data p)) + Js.Math_sin (t * speed (data p)) * range (data p).

(** [vx] as computed in the frame. *)
Definition platformVx (p : Props) (elapsed : R) : R :=
  let t := elapsed + offset (data p) in
  Js.Math_cos (t * speed (data p)) * speed (data p) * range (data p).

(** The frame callback: the new table and the calls on the platform's
    own body. *)
Definition useFrame (p : Props) (elapsed : R) (platformsMap : table)
  : table * list ApiCall :=
  let t := elapsed + offset (data p) in
  let x := at0 (position (data p)) + Js.Math_sin (t * speed (data p)) * range (data p) in
  let vx := Js.Math_cos (t * speed (data p)) * speed (data p) * range (data p) in
  (<[index p := vx]> platformsMap,
   [position_set x (at1 (position (data p))) (at2 (position (data p)));
    velocity_set vx 0 0]).

(** The body of the construction loop at counter [i]; [random n] is the
    value of the [n]-th call of [Math.random()]. *)
Definition platformAt (random : nat -> R) (i : nat) : PlatformData :=
  MkData (V3 ((random (4 * i)%nat - 0.5) * 8) 0 (-10 - IZR (Z.of_nat i) * 6))
         (random (4 * i + 1)%nat * PI * 2)
         (2 + random (4 * i + 2)%nat * 3)
         (1 + random (4 * i + 3)%nat * 1.5).

(** [for (let i = 0; i < 10; i++) data.push({ ... })]. *)
Definition platforms (random : nat -> R) : list PlatformData :=
  map (platformAt random) (seq 0 10).

(** [platforms.map((p, index) => <MovingPlatform index={index} ... />)]. *)
Definition movingPlatforms (random : nat -> R) : list Props :=
  imap (fun index p => MkProps (Z.of_nat index) p) (platforms random).

(** [<Goal position={[0, 0, -10 - platforms.length * 6 - 5]} />]. *)
Definition goalPosition (random : nat -> R) : vec3 :=
  V3 0 0 (-10 - IZR (Z.of_nat (length (platforms random))) * 6 - 5).

(** All platforms run their frame callback once, in mount order. *)
Definition platformsFrame (random : nat -> R) (elapsed : R) (platformsMap : table)
  : table :=
  foldl (fun m p => fst (useFrame p elapsed m)) platformsMap (movingPlatforms random).

(** The tables the module-level [platformsMap] can hold: it starts
    empty and changes only when some mounted platform runs its frame. *)
Inductive reachable (random : nat -> R) : table -> Prop :=
| reach_new : reachable random ∅
| reach_frame (m : table) (p : Props) (elapsed : R) :
    reachable random m ->
    p ∈ movingPlatforms random ->
    reachable random (fst (useFrame p elapsed m)).

End Scene.

(** ** Frame sequences *)

(** What the host supplies to one frame of [Player]: the input devices,
    the velocity table as it stands, and the position and velocity last
    delivered by the physics subscriptions. *)
Record Tick (I : Type) : Type := MkTick {
  input : I;
  platformsMap : table;
  sub_pos : vec3;
  sub_vel : vec3
}.
Arguments MkTick {I}.
Arguments input {I}.
Arguments platformsMap {I}.
Arguments sub_pos {I}.
Arguments sub_vel {I}.

(** The refs a frame sees, given the edge detector left by the last one. *)
Definition refsAt {I : Type} (t : Tick I) (was : bool) : Refs :=
  MkRefs (sub_pos t) (sub_vel t) was.

(** Frames in sequence: [wasJumpPressed] and the camera carry over. *)
Fixpoint run {I : Type} (frame : I -> table -> Refs -> Camera -> FrameOut)
  (was : bool) (cam : Camera) (ticks : list (Tick I)) : list FrameOut :=
  match ticks with
  | [] => []
  | t :: ts =>
      let out := frame (input t) (platformsMap t) (refsAt t was) cam in
      out :: run frame (wasJumpPressed (refs' out)) (camera' out) ts
  end.

(** A call that sets the vertical velocity to the jump impulse 9. *)
Definition isImpulse (c : ApiCall) : bool :=
  match c with
  | velocity_set _ vy _ => if Req_dec_T vy 9 then true else false
  | position_set _ _ _ => false
  end.

Definition impulseFired (out : FrameOut) : bool := existsb isImpulse (calls out).

(** A frame that takes the reset branch. *)
Definition isReset (r : Refs) : bool := at1 (pos r) <? -5.

(** Rising edges of a boolean signal, [prev] being its value before the
    first sample. *)
Fixpoint risingEdges (prev : bool) (signal : list bool) : list bool :=
  match signal with
  | [] => []
  | s :: rest => (s && negb prev) :: risingEdges s rest
  end.

(** The 2D input vector, normalised only when its magnitude exceeds 1,
    times the move speed. *)
Definition steerCommand (inputX inputZ : R) : R * R :=
  let magnitude := sqrt (inputX * inputX + inputZ * inputZ) in
  if magnitude >? 1
  then (inputX / magnitude * moveSpeed, inputZ / magnitude * moveSpeed)
  else (inputX * moveSpeed, inputZ * moveSpeed).

(** ** The touch joystick widget (analog-joystick build) *)

Module Widget.

(** [containerRef.current.getBoundingClientRect()]. *)
Record DOMRect : Type := MkRect {
  rect_left : R;
  rect_top : R;
  rect_width : R;
  rect_height : R
}.

(** The pointer event, as far as the handler reads it. *)
Record PointerEvent : Type := MkPointer {
  clientX : R;
  clientY : R
}.

(** What a handler leaves behind: the offset in pixels written into the
    thumb's [translate(...)] and the module-level [joystickVector]. *)
Record Stick : Type := MkStick {
  thumb : Joystick.vec2;
  vector : Joystick.vec2
}.

Definition handlePointerMove (rect : DOMRect) (e : PointerEvent) : Stick :=
  let centerX := rect_left rect + rect_width rect / 2 in
  let centerY := rect_top rect + rect_height rect / 2 in
  let dx := clientX e - centerX in
  let dy := clientY e - centerY in
  let distance := Js.Math_sqrt (dx * dx + dy * dy) in
  let maxRadius := rect_width rect / 2 in
  let dx' := if distance >? maxRadius then dx * (maxRadius / distance) else dx in
  let dy' := if distance >? maxRadius then dy * (maxRadius / distance) else dy in
  MkStick (Joystick.V2 dx' dy')
          (Joystick.V2 (dx' / maxRadius) (dy' / maxRadius)).

Definition handlePointerUp : Stick :=
  MkStick (Joystick.V2 0 0) (Joystick.V2 0 0).

End Widget.

(** ** The touch buttons (discrete-button build) *)

Module Touch.

(** [keyof typeof mobileInput]. *)
Inductive Key : Type := Kforward | Kbackward | Kleft | Kright | Kjump.

(** [mobileInput[key]]. *)
Definition get (key : Key) (mobileInput : Controls) : bool :=
  match key with
  | Kforward => forward mobileInput
  | Kbackward => backward mobileInput
  | Kleft => left mobileInput
  | Kright => right mobileInput
  | Kjump => jump mobileInput
  end.

(** [mobileInput[key] = pressed]. *)
Definition handlePress (key : Key) (pressed : bool) (mobileInput : Controls)
  : Controls :=
  match key with
  | Kforward =>
      MkControls pressed (backward mobileInput) (left mobileInput)
                 (right mobileInput) (jump mobileInput)
  | Kbackward =>
      MkControls (forward mobileInput) pressed (left mobileInput)
                 (right mobileInput) (jump mobileInput)
  | Kleft =>
      MkControls (forward mobileInput) (backward mobileInput) pressed
                 (right mobileInput) (jump mobileInput)
  | Kright =>
      MkControls (forward mobileInput) (backward mobileInput) (left mobileInput)
                 pressed (jump mobileInput)
  | Kjump =>
      MkControls (forward mobileInput) (backward mobileInput) (left mobileInput)
                 (right mobileInput) pressed
  end.

(** The pointer events a button can receive. *)
Inductive Pointer : Type := PointerDown | PointerUp | PointerLeave.

(** The handlers attached to the button of [key]: the four direction
    buttons have [onPointerDown], [onPointerUp] and [onPointerLeave]; the
    jump button has only the first two. *)
Definition onPointer (key : Key) (ev : Pointer) (mobileInput : Controls)
  : Controls :=
  match ev with
  | PointerDown => handlePress key true mobileInput
  | PointerUp => handlePress key false mobileInput
  | PointerLeave =>
      match key with
      | Kjump => mobileInput
      | _ => handlePress key false mobileInput
      end
  end.

(** Events delivered in order. *)
Definition dispatch (events : list (Key * Pointer)) (mobileInput : Controls)
  : Controls :=
  foldl (fun mi ke => onPointer (fst ke) (snd ke) mi) mobileInput events.

Definition Key_eqb (a b : Key) : bool :=
  match a, b with
  | Kforward, Kforward | Kbackward, Kbackward | Kleft, Kleft
  | Kright, Kright | Kjump, Kjump => true
  | _, _ => false
  end.

End Touch.

(** ** Observations on frame sequences *)

(** A frame that issued the steering command and then the jump write. *)
Definition jumpWritten (out : FrameOut) : bool :=
  match calls out with
  | [velocity_set _ _ _; velocity_set _ _ _] => true
  | _ => false
  end.

(** The camera after a run of frames that started with [cam]. *)
Definition lastCamera (cam : Camera) (outs : list FrameOut) : Camera :=
  List.last (map camera' outs) cam.

(** The point the camera is drawn to while the player is at [p]. *)
Definition cameraTarget (p : vec3) : vec3 :=
  V3 (at0 p + at0 CAMERA_OFFSET) (at1 p + at1 CAMERA_OFFSET) (at2 p + at2 CAMERA_OFFSET).

(** The draws of [Math.random()] lie in [[0, 1)]. *)
Definition unitRandom (random : nat -> R) : Prop := forall n : nat, 0 <= random n < 1.

(** A component of a purely discrete intent. *)
Definition discrete (d : R) : Prop := d = -1 \/ d = 0 \/ d = 1.

(** A frame in which the player counts as grounded, and one that does
    not take the reset branch. *)
Definition tickGrounded {I : Type} (t : Tick I) : Prop := Rabs (at1 (sub_vel t)) < 0.5.
Definition tickActive {I : Type} (t : Tick I) : Prop := at1 (sub_pos t) >= -5.

(** ** Facts about the number model *)

Lemma lt_true (x y : R) : x < y -> (x <? y) = true.
Proof. intros H. unfold Js.lt. destruct (Rlt_dec x y); [reflexivity | contradiction]. Qed.

Lemma lt_false (x y : R) : y <= x -> (x <? y) = false.
Proof. intros H. unfold Js.lt. destruct (Rlt_dec x y); [lra | reflexivity]. Qed.

Lemma lt_true_iff (x y : R) : (x <? y) = true <-> x < y.
Proof.
  unfold Js.lt. destruct (Rlt_dec x y); split; intros; try reflexivity;
    try assumption; try discriminate; contradiction.
Qed.

Lemma gt_true (x y : R) : y < x -> (x >? y) = true.
Proof. apply lt_true. Qed.

Lemma gt_false (x y : R) : x <= y -> (x >? y) = false.
Proof. apply lt_false. Qed.

Lemma Math_round_bounds (x : R) :
  IZR (Js.Math_round x) - / 2 <= x < IZR (Js.Math_round x) + / 2.
Proof.
  unfold Js.Math_round. destruct (base_Int_part (x + / 2)) as [H1 H2]. lra.
Qed.

Lemma Math_round_unique (x : R) (n : Z) :
  IZR n - / 2 <= x < IZR n + / 2 -> Js.Math_round x = n.
Proof.
  intros [H1 H2]. unfold Js.Math_round. symmetry. apply Int_part_spec. lra.
Qed.

Lemma rideIndex_near (i : Z) (d : R) :
  -3 < d <= 3 -> rideIndex (targetZ i + d) = i.
Proof.
  intros Hd. unfold rideIndex, targetZ. apply Math_round_unique.
  replace ((-10 - IZR i * 6 + d + 10) / -6) with (IZR i - d / 6) by field.
  lra.
Qed.

Lemma isGrounded_true (r : Refs) : isGrounded r = true <-> Rabs (at1 (vel r)) < 0.5.
Proof. unfold isGrounded, Js.Math_abs. apply lt_true_iff. Qed.

Lemma rideAccept_inside (i : Z) (d : R) :
  (0 <= i)%Z -> -2.5 < d < 2.5 -> rideAccept (targetZ i + d) = true.
Proof.
  intros Hi Hd. unfold rideAccept. cbv zeta.
  rewrite rideIndex_near by lra.
  apply andb_true_intro; split.
  - apply Z.leb_le, Hi.
  - apply lt_true. unfold Js.Math_abs.
    replace (targetZ i + d - targetZ i) with d by ring.
    apply Rabs_def1; lra.
Qed.

Lemma rideAccept_outside (i : Z) (d : R) :
  -3 < d <= -2.5 \/ 2.5 <= d <= 3 -> rideAccept (targetZ i + d) = false.
Proof.
  intros Hd. unfold rideAccept. cbv zeta.
  rewrite rideIndex_near by lra.
  apply andb_false_intro2. apply lt_false. unfold Js.Math_abs.
  replace (targetZ i + d - targetZ i) with d by ring.
  destruct Hd as [Hd | Hd].
  - rewrite Rabs_left by lra. lra.
  - rewrite Rabs_right by lra. lra.
Qed.

(** ** The two frame callbacks in normal form *)

Lemma Buttons_useFrame_reset (i : Buttons.Input) (m : table) (r : Refs) (cam : Camera) :
  at1 (pos r) < -5 ->
  Buttons.useFrame i m r cam
  = MkFrameOut [position_set 0 5 0; velocity_set 0 0 0] r cam.
Proof. intros H. unfold Buttons.useFrame. cbv zeta. rewrite lt_true by exact H. reflexivity. Qed.

Lemma Buttons_useFrame_active (i : Buttons.Input) (m : table) (r : Refs) (cam : Camera) :
  -5 <= at1 (pos r) ->
  Buttons.useFrame i m r cam
  = MkFrameOut
      (velocity_set
         (fst (Buttons.direction (fst (Buttons.intent i)) (snd (Buttons.intent i)))
          + rideExtraX m r)
         (at1 (vel r))
         (snd (Buttons.direction (fst (Buttons.intent i)) (snd (Buttons.intent i))))
       :: (if Buttons.jumpIntent i && negb (wasJumpPressed r) && isGrounded r
           then [velocity_set (at0 (vel r)) 9 (at2 (vel r))] else []))
      (MkRefs (pos r) (vel r) (Buttons.jumpIntent i))
      (followCamera r cam).
Proof. intros H. unfold Buttons.useFrame. cbv zeta. rewrite lt_false by exact H. reflexivity. Qed.

Lemma Joystick_useFrame_reset (i : Joystick.Input) (m : table) (r : Refs) (cam : Camera) :
  at1 (pos r) < -5 ->
  Joystick.useFrame i m r cam
  = MkFrameOut [position_set 0 5 0; velocity_set 0 0 0] r cam.
Proof. intros H. unfold Joystick.useFrame. cbv zeta. rewrite lt_true by exact H. reflexivity. Qed.

Lemma Joystick_useFrame_active (i : Joystick.Input) (m : table) (r : Refs) (cam : Camera) :
  -5 <= at1 (pos r) ->
  Joystick.useFrame i m r cam
  = MkFrameOut
      (velocity_set
         (fst (Joystick.direction (fst (Joystick.intent i)) (snd (Joystick.intent i)))
          + rideExtraX m r)
         (at1 (vel r))
         (snd (Joystick.direction (fst (Joystick.intent i)) (snd (Joystick.intent i))))
       :: (if Joystick.jumpIntent i && negb (wasJumpPressed r) && isGrounded r
           then [velocity_set (at0 (vel r)) 9 (at2 (vel r))] else []))
      (MkRefs (pos r) (vel r) (Joystick.jumpIntent i))
      (followCamera r cam).
Proof. intros H. unfold Joystick.useFrame. cbv zeta. rewrite lt_false by exact H. reflexivity. Qed.

(** ** The ride resolver around a platform's target Z *)

Lemma rideMatch_inside (i : Z) (d : R) (r : Refs) :
  (0 <= i)%Z -> isGrounded r = true -> at1 (pos r) > -0.1 ->
  at2 (pos r) = targetZ i + d -> -2.5 < d < 2.5 ->
  rideMatch r = Some i.
Proof.
  intros Hi Hg Hy Hz Hd. unfold rideMatch.
  rewrite Hg, gt_true by lra. rewrite Hz.
  rewrite rideAccept_inside by assumption. simpl.
  rewrite rideIndex_near by lra. reflexivity.
Qed.

Lemma rideExtraX_inside (m : table) (i : Z) (d : R) (r : Refs) :
  (0 <= i)%Z -> isGrounded r = true -> at1 (pos r) > -0.1 ->
  at2 (pos r) = targetZ i + d -> -2.5 < d < 2.5 ->
  rideExtraX m r = get_or_0 m i.
Proof.
  intros Hi Hg Hy Hz Hd. unfold rideExtraX.
  rewrite Hg, gt_true by lra. rewrite Hz.
  rewrite rideAccept_inside by assumption. simpl.
  rewrite rideIndex_near by lra. reflexivity.
Qed.

Lemma rideMatch_outside (i : Z) (d : R) (r : Refs) :
  at2 (pos r) = targetZ i + d -> -3 < d <= -2.5 \/ 2.5 <= d <= 3 ->
  rideMatch r = None.
Proof.
  intros Hz Hd. unfold rideMatch. rewrite Hz.
  rewrite rideAccept_outside by assumption.
  rewrite andb_false_r. reflexivity.
Qed.

Lemma rideExtraX_outside (m : table) (i : Z) (d : R) (r : Refs) :
  at2 (pos r) = targetZ i + d -> -3 < d <= -2.5 \/ 2.5 <= d <= 3 ->
  rideExtraX m r = 0.
Proof.
  intros Hz Hd. unfold rideExtraX. rewrite Hz.
  rewrite rideAccept_outside by assumption.
  destruct (isGrounded r && (at1 (pos r) >? -0.1)); reflexivity.
Qed.

Lemma get_or_0_Some (m : table) (i : Z) (v : R) : m !! i = Some v -> get_or_0 m i = v.
Proof. intros H. unfold get_or_0. rewrite H. reflexivity. Qed.

Lemma get_or_0_None (m : table) (i : Z) : m !! i = None -> get_or_0 m i = 0.
Proof. intros H. unfold get_or_0. rewrite H. reflexivity. Qed.

(** C1.  A grounded player with [py > -0.1] whose Z is exactly platform
    [i]'s target Z ([-10 - 6 i], [i >= 0]), or off it by 2.49 either way,
    is matched to index [i] and carried with the velocity the table
    holds for [i]; off by 2.51 either way it is matched to nothing and
    [extraX] is 0. *)
Theorem C1_ride_resolver_tolerance (i : Z) (m : table) (px py : R) (v : vec3) (w : bool) :
  (0 <= i)%Z -> Rabs (at1 v) < 0.5 -> py > -0.1 ->
  let at_ (d : R) := MkRefs (V3 px py (targetZ i + d)) v w in
  (forall d, d = 0 \/ d = 2.49 \/ d = -2.49 ->
     rideIndex (targetZ i + d) = i /\
     rideAccept (targetZ i + d) = true /\
     rideMatch (at_ d) = Some i /\
     rideExtraX m (at_ d) = get_or_0 m i /\
     (forall vx, m !! i = Some vx -> rideExtraX m (at_ d) = vx)) /\
  (forall d, d = 2.51 \/ d = -2.51 ->
     rideAccept (targetZ i + d) = false /\
     rideMatch (at_ d) = None /\
     rideExtraX m (at_ d) = 0).
Proof.
  intros Hi Hv Hy at_. split.
  - intros d Hd.
    assert (Hband : -2.5 < d < 2.5) by (destruct Hd as [-> | [-> | ->]]; lra).
    assert (Hg : isGrounded (at_ d) = true) by (apply isGrounded_true; exact Hv).
    assert (He : rideExtraX m (at_ d) = get_or_0 m i)
      by (apply rideExtraX_inside with (d := d); auto).
    split; [apply rideIndex_near; lra |].
    split; [apply rideAccept_inside; assumption |].
    split; [apply rideMatch_inside with (d := d); auto |].
    split; [exact He |].
    intros vx Hvx. rewrite He. apply get_or_0_Some, Hvx.
  - intros d Hd.
    assert (Hband : -3 < d <= -2.5 \/ 2.5 <= d <= 3) by (destruct Hd as [-> | ->]; lra).
    split; [apply rideAccept_outside; assumption |].
    split.
    + apply rideMatch_outside with (i := i) (d := d); auto.
    + apply rideExtraX_outside with (i := i) (d := d); auto.
Qed.

Lemma C1_ride_resolver_tolerance_witness :
  rideMatch (MkRefs (V3 1 0.25 (-28 + 2.49)) (V3 0 0 0) false) = Some 3%Z /\
  rideExtraX {[ 3%Z := 4 ]} (MkRefs (V3 1 0.25 (-28 + 2.49)) (V3 0 0 0) false) = 4 /\
  rideExtraX {[ 3%Z := 4 ]} (MkRefs (V3 1 0.25 (-28 + 2.51)) (V3 0 0 0) false) = 0.
Proof.
  assert (Hv : Rabs (at1 (V3 0 0 0)) < 0.5) by (simpl; rewrite Rabs_R0; lra).
  assert (Hy : 0.25 > -0.1) by lra.
  assert (Hi : (0 <= 3)%Z) by lia.
  assert (Ht : targetZ 3 = -28) by (unfold targetZ; lra).
  destruct (C1_ride_resolver_tolerance 3 {[ 3%Z := 4 ]} 1 0.25 (V3 0 0 0) false Hi Hv Hy)
    as [Hin Hout].
  rewrite Ht in Hin, Hout.
  destruct (Hin 2.49 (or_intror (or_introl eq_refl))) as (_ & _ & Hm & _ & Hx).
  destruct (Hout 2.51 (or_introl eq_refl)) as (_ & _ & H0).
  split; [exact Hm |].
  split; [apply Hx; apply lookup_singleton_eq | exact H0].
Defined.

(** ** Reset frames *)

Lemma no_position_set_active (steer : ApiCall) (b : bool) (a c : R) (x y z : R) :
  (forall x' y' z', steer <> position_set x' y' z') ->
  ~ In (position_set x y z) (steer :: (if b then [velocity_set a 9 c] else [])).
Proof.
  intros Hs [H | H].
  - exact (Hs _ _ _ H).
  - destruct b; simpl in H; [destruct H as [H | []]; discriminate | contradiction].
Qed.

(** C5.  A frame with [py < -5] sets the position to the spawn point
    [(0, 5, 0)] and the velocity to [(0, 0, 0)] and does nothing else: the
    result does not depend on the input or on the velocity table, the
    edge detector keeps its value and the camera is not touched.  A frame
    with [py >= -5] never sets the position; its camera follows. *)
Theorem C5_reset_frame
  (bi : Buttons.Input) (ji : Joystick.Input) (m : table) (r : Refs) (cam : Camera) :
  (at1 (pos r) < -5 ->
     Buttons.useFrame bi m r cam
       = MkFrameOut [position_set 0 5 0; velocity_set 0 0 0] r cam /\
     Joystick.useFrame ji m r cam
       = MkFrameOut [position_set 0 5 0; velocity_set 0 0 0] r cam) /\
  (at1 (pos r) >= -5 ->
     (forall x y z,
        ~ In (position_set x y z) (calls (Buttons.useFrame bi m r cam)) /\
        ~ In (position_set x y z) (calls (Joystick.useFrame ji m r cam))) /\
     camera' (Buttons.useFrame bi m r cam) = followCamera r cam /\
     camera' (Joystick.useFrame ji m r cam) = followCamera r cam).
Proof.
  split.
  - intros H. split.
    + apply Buttons_useFrame_reset, H.
    + apply Joystick_useFrame_reset, H.
  - intros H. apply Rge_le in H.
    rewrite Buttons_useFrame_active, Joystick_useFrame_active by exact H.
    simpl. split; [| split; reflexivity].
    intros x y z. split; apply no_position_set_active; intros; discriminate.
Qed.

Lemma C5_reset_frame_witness :
  let r := MkRefs (V3 3 (-6) (-12)) (V3 1 (-9) 0) true in
  let cam := MkCamera (V3 0 5 10) (V3 0 0 0) in
  let bi := Buttons.MkInput (MkControls true false false true true)
                            (MkControls false false false false false) in
  let ji := Joystick.MkInput (MkControls true false false true true)
                             (Joystick.V2 0 0) false in
  Buttons.useFrame bi ∅ r cam
    = MkFrameOut [position_set 0 5 0; velocity_set 0 0 0] r cam /\
  Joystick.useFrame ji ∅ r cam
    = MkFrameOut [position_set 0 5 0; velocity_set 0 0 0] r cam.
Proof.
  intros r cam bi ji.
  apply (proj1 (C5_reset_frame bi ji ∅ r cam)). simpl. lra.
Defined.

(** ** The jump write *)

(** C9.  On a frame where the jump impulse fires (jump intent pressed,
    not pressed on the previous frame, grounded, no reset) two velocity
    commands are issued; the last one, which is the one that stands, has
    the horizontal components last received from the physics
    subscription, [vel.current[0]] and [vel.current[2]], and not the
    steering command issued just before it. *)
Theorem C9_jump_overwrites_steering
  (bi : Buttons.Input) (ji : Joystick.Input) (m : table) (r : Refs) (cam : Camera) :
  at1 (pos r) >= -5 -> wasJumpPressed r = false -> isGrounded r = true ->
  (Buttons.jumpIntent bi = true ->
     calls (Buttons.useFrame bi m r cam)
     = [velocity_set
          (fst (Buttons.direction (fst (Buttons.intent bi)) (snd (Buttons.intent bi)))
           + rideExtraX m r)
          (at1 (vel r))
          (snd (Buttons.direction (fst (Buttons.intent bi)) (snd (Buttons.intent bi))));
        velocity_set (at0 (vel r)) 9 (at2 (vel r))] /\
     last (calls (Buttons.useFrame bi m r cam))
     = Some (velocity_set (at0 (vel r)) 9 (at2 (vel r)))) /\
  (Joystick.jumpIntent ji = true ->
     calls (Joystick.useFrame ji m r cam)
     = [velocity_set
          (fst (Joystick.direction (fst (Joystick.intent ji)) (snd (Joystick.intent ji)))
           + rideExtraX m r)
          (at1 (vel r))
          (snd (Joystick.direction (fst (Joystick.intent ji)) (snd (Joystick.intent ji))));
        velocity_set (at0 (vel r)) 9 (at2 (vel r))] /\
     last (calls (Joystick.useFrame ji m r cam))
     = Some (velocity_set (at0 (vel r)) 9 (at2 (vel r)))).
Proof.
  intros Hy Hw Hg. apply Rge_le in Hy. split; intros Hj.
  - rewrite Buttons_useFrame_active by exact Hy.
    rewrite Hj, Hw, Hg. simpl. split; reflexivity.
  - rewrite Joystick_useFrame_active by exact Hy.
    rewrite Hj, Hw, Hg. simpl. split; reflexivity.
Qed.

Lemma C9_jump_overwrites_steering_witness :
  let r := MkRefs (V3 0 0.75 (-3)) (V3 3 0.2 (-1)) false in
  let cam := MkCamera (V3 0 5 10) (V3 0 0 0) in
  let bi := Buttons.MkInput (MkControls false false false true true)
                            (MkControls false false false false false) in
  let ji := Joystick.MkInput (MkControls false false false true false)
                             (Joystick.V2 0 0) true in
  last (calls (Buttons.useFrame bi ∅ r cam)) = Some (velocity_set 3 9 (-1)) /\
  last (calls (Joystick.useFrame ji ∅ r cam)) = Some (velocity_set 3 9 (-1)).
Proof.
  intros r cam bi ji.
  assert (Hy : at1 (pos r) >= -5) by (simpl; lra).
  assert (Hg : isGrounded r = true)
    by (apply isGrounded_true; simpl; apply Rabs_def1; lra).
  destruct (C9_jump_overwrites_steering bi ji ∅ r cam Hy eq_refl Hg) as [Hb Hj].
  split.
  - exact (proj2 (Hb eq_refl)).
  - exact (proj2 (Hj eq_refl)).
Defined.

(** ** The carry term *)

(** C6.  The platform-carry term is a number for every frame, and it is
    0 unless the player is grounded ([|vy| < 0.5]), [py > -0.1] and the
    resolver accepts its candidate index; when the accepted index has no
    entry in the velocity table the term is 0 as well.  In every frame
    that is not a reset frame this term is what is added to the X
    component of the steering command. *)
Theorem C6_extraX_defaults_to_zero
  (bi : Buttons.Input) (ji : Joystick.Input) (m : table) (r : Refs) (cam : Camera) :
  (rideExtraX m r <> 0 ->
     Rabs (at1 (vel r)) < 0.5 /\ at1 (pos r) > -0.1 /\
     rideAccept (at2 (pos r)) = true /\
     m !! rideIndex (at2 (pos r)) = Some (rideExtraX m r)) /\
  (m !! rideIndex (at2 (pos r)) = None -> rideExtraX m r = 0) /\
  (at1 (pos r) >= -5 ->
     exists dirB dirJ : R * R,
       calls (Buttons.useFrame bi m r cam)
         = velocity_set (fst dirB + rideExtraX m r) (at1 (vel r)) (snd dirB)
           :: skipn 1 (calls (Buttons.useFrame bi m r cam)) /\
       calls (Joystick.useFrame ji m r cam)
         = velocity_set (fst dirJ + rideExtraX m r) (at1 (vel r)) (snd dirJ)
           :: skipn 1 (calls (Joystick.useFrame ji m r cam))).
Proof.
  split; [| split].
  - unfold rideExtraX, get_or_0. intros H.
    destruct (isGrounded r) eqn:Hg; simpl in H; [| congruence].
    destruct (at1 (pos r) >? -0.1) eqn:Hy; simpl in H; [| congruence].
    destruct (rideAccept (at2 (pos r))) eqn:Ha; [| congruence].
    apply isGrounded_true in Hg. apply lt_true_iff in Hy.
    repeat split; try assumption; try lra.
    destruct (m !! rideIndex (at2 (pos r))) as [vx |]; simpl in *; congruence.
  - intros H. unfold rideExtraX.
    rewrite (get_or_0_None _ _ H).
    destruct (isGrounded r && (at1 (pos r) >? -0.1)); [| reflexivity].
    destruct (rideAccept (at2 (pos r))); reflexivity.
  - intros Hy. apply Rge_le in Hy.
    exists (Buttons.direction (fst (Buttons.intent bi)) (snd (Buttons.intent bi))),
           (Joystick.direction (fst (Joystick.intent ji)) (snd (Joystick.intent ji))).
    rewrite Buttons_useFrame_active, Joystick_useFrame_active by exact Hy.
    split; reflexivity.
Qed.

Lemma C6_extraX_defaults_to_zero_witness :
  let r := MkRefs (V3 0 0.75 (-75)) (V3 0 0 0) false in
  rideExtraX {[ 0%Z := 7 ]} r = 0.
Proof.
  intros r.
  pose (cam := MkCamera (V3 0 5 10) (V3 0 0 0)).
  pose (bi := Buttons.MkInput (MkControls false false false false false)
                              (MkControls false false false false false)).
  pose (ji := Joystick.MkInput (MkControls false false false false false)
                               (Joystick.V2 0 0) false).
  apply (proj1 (proj2 (C6_extraX_defaults_to_zero bi ji {[ 0%Z := 7 ]} r cam))).
  assert (Hi : rideIndex (-75) = 11%Z).
  { replace (-75) with (targetZ 11 + 1) by (unfold targetZ; lra).
    apply rideIndex_near. lra. }
  simpl. rewrite Hi. apply lookup_singleton_ne. lia.
Defined.

(** ** The platform oscillator *)

Lemma derivable_pt_lim_eq (f : R -> R) (x l l' : R) :
  l = l' -> derivable_pt_lim f x l -> derivable_pt_lim f x l'.
Proof. intros ->. exact (fun H => H). Qed.

(** The phase [(elapsed + offset) * speed] moves at rate [speed]. *)
Lemma phase_derivative (off sp e : R) :
  derivable_pt_lim (fun e' => (e' + off) * sp) e sp.
Proof.
  assert (Hs : derivable_pt_lim (fun e' : R => e' + off) e (1 + 0)).
  { exact (derivable_pt_lim_plus id (fun _ => off) e 1 0
             (derivable_pt_lim_id e) (derivable_pt_lim_const off e)). }
  apply derivable_pt_lim_eq with (l := (1 + 0) * sp + (e + off) * 0); [ring |].
  exact (derivable_pt_lim_mult (fun e' => e' + off) (fun _ => sp) e (1 + 0) 0
           Hs (derivable_pt_lim_const sp e)).
Qed.

Lemma oscillator_derivative (x0 off rg sp e : R) :
  derivable_pt_lim (fun e' => x0 + sin ((e' + off) * sp) * rg) e
                   (cos ((e + off) * sp) * sp * rg).
Proof.
  assert (Hsin : derivable_pt_lim (fun e' => sin ((e' + off) * sp)) e
                                  (cos ((e + off) * sp) * sp)).
  { exact (derivable_pt_lim_comp (fun e' => (e' + off) * sp) sin e sp
             (cos ((e + off) * sp))
             (phase_derivative off sp e)
             (derivable_pt_lim_sin ((e + off) * sp))). }
  assert (Hmul : derivable_pt_lim (fun e' => sin ((e' + off) * sp) * rg) e
                                  (cos ((e + off) * sp) * sp * rg)).
  { apply derivable_pt_lim_eq
      with (l := cos ((e + off) * sp) * sp * rg + sin ((e + off) * sp) * 0); [ring |].
    exact (derivable_pt_lim_mult (fun e' => sin ((e' + off) * sp)) (fun _ => rg) e
             (cos ((e + off) * sp) * sp) 0 Hsin (derivable_pt_lim_const rg e)). }
  apply derivable_pt_lim_eq with (l := 0 + cos ((e + off) * sp) * sp * rg); [ring |].
  exact (derivable_pt_lim_plus (fun _ => x0) (fun e' => sin ((e' + off) * sp) * rg) e
           0 (cos ((e + off) * sp) * sp * rg) (derivable_pt_lim_const x0 e) Hmul).
Qed.

(** C2.  At every clock reading, for every phase offset, amplitude and
    angular speed, the velocity a platform stores in the shared table
    under its index and writes to its body,
    [cos ((t + offset) * speed) * speed * range], is the derivative with
    respect to time of the X position it writes to its body,
    [x0 + sin ((t + offset) * speed) * range]. *)
Theorem C2_platform_velocity_is_derivative
  (p : Scene.Props) (elapsed : R) (m : table) :
  fst (Scene.useFrame p elapsed m) !! Scene.index p = Some (Scene.platformVx p elapsed) /\
  snd (Scene.useFrame p elapsed m)
  = [position_set (Scene.platformX p elapsed)
                  (at1 (Scene.position (Scene.data p)))
                  (at2 (Scene.position (Scene.data p)));
     velocity_set (Scene.platformVx p elapsed) 0 0] /\
  Scene.platformVx p elapsed
  = cos ((elapsed + Scene.offset (Scene.data p)) * Scene.speed (Scene.data p))
    * Scene.speed (Scene.data p) * Scene.range (Scene.data p) /\
  derivable_pt_lim (fun t => Scene.platformX p t) elapsed (Scene.platformVx p elapsed).
Proof.
  split; [| split; [| split]].
  - unfold Scene.useFrame. cbv zeta. simpl. apply lookup_insert_eq.
  - reflexivity.
  - reflexivity.
  - unfold Scene.platformX, Scene.platformVx, Js.Math_sin, Js.Math_cos. cbv zeta.
    apply oscillator_derivative.
Qed.

(** ** Steering: normalisation of the input vector *)

Lemma sqrt_2_gt_1 : 1 < sqrt 2.
Proof. rewrite <- sqrt_1 at 1. apply sqrt_lt_1; lra. Qed.



(** The length of a discrete intent is 0, 1 or [sqrt 2]. *)
Lemma discrete_length (dx dz : R) :
  discrete dx -> discrete dz ->
  (dx = 0 /\ dz = 0 /\ sqrt (dx * dx + dz * dz) = 0) \/
  sqrt (dx * dx + dz * dz) = 1 \/
  (dx * dx = 1 /\ dz * dz = 1 /\ sqrt (dx * dx + dz * dz) = sqrt 2).
Proof.
  intros [-> | [-> | ->]] [-> | [-> | ->]];
    match goal with
    | |- context [sqrt ?e] =>
        first
          [ replace e with 0 by ring; left; repeat split; try reflexivity; apply sqrt_0
          | replace e with 1 by ring; right; left; apply sqrt_1
          | replace e with 2 by ring; right; right; repeat split; ring ]
    end.
Qed.

Lemma Joystick_direction_steerCommand (inputX inputZ : R) :
  Joystick.direction inputX inputZ = steerCommand inputX inputZ.
Proof.
  unfold Joystick.direction, steerCommand, Js.Math_sqrt, Js.gt, Js.lt, moveSpeed.
  cbv zeta.
  set (len := sqrt (inputX * inputX + inputZ * inputZ)).
  assert (Hpos : 0 <= len) by apply sqrt_pos.
  destruct (Rlt_dec 1 len) as [H1 | H1].
  - destruct (Rlt_dec 0 len) as [H0 | H0]; [reflexivity | lra].
  - destruct (Rlt_dec 0 len) as [H0 | H0].
    + f_equal; field.
    + assert (Hz : len = 0) by lra.
      assert (Hsum : inputX * inputX + inputZ * inputZ = 0).
      { apply sqrt_eq_0; [nra | exact Hz]. }
      assert (inputX = 0) by nra. assert (inputZ = 0) by nra. subst inputX inputZ.
      f_equal; ring.
Qed.

Lemma directions_agree_on_discrete (dx dz : R) :
  discrete dx -> discrete dz -> Buttons.direction dx dz = Joystick.direction dx dz.
Proof.
  intros Hx Hz.
  unfold Buttons.direction, Joystick.direction, Js.Math_sqrt. cbv zeta.
  destruct (discrete_length dx dz Hx Hz) as [(-> & -> & ->) | [-> | (_ & _ & ->)]].
  - rewrite gt_false by lra. reflexivity.
  - rewrite gt_true by lra. rewrite gt_false by lra. reflexivity.
  - pose proof sqrt_2_gt_1. rewrite gt_true by lra. rewrite gt_true by lra. reflexivity.
Qed.

Lemma neq0_else_0 (e : R) : (if Js.neq0 e then e else 0) = e.
Proof. unfold Js.neq0. destruct (Req_dec_T e 0) as [He | He]; [symmetry; exact He | reflexivity]. Qed.

Lemma cond_discrete (a b : bool) : discrete (Js.cond a (-1) 0 + Js.cond b 1 0).
Proof. unfold discrete. destruct a, b; simpl; lra. Qed.

Lemma Buttons_intent_discrete (i : Buttons.Input) :
  discrete (fst (Buttons.intent i)) /\ discrete (snd (Buttons.intent i)).
Proof. unfold Buttons.intent. cbv zeta. simpl. split; apply cond_discrete. Qed.








(** ** The two builds on discrete input *)

(** C8.  On a purely discrete intent (each component -1, 0 or 1) the
    discrete-button build, which divides by the length whenever it is
    positive, and the analog-joystick build, which divides only when the
    length exceeds 1, compute the same pair of horizontal velocities.  So
    with the same keyboard state, no touch direction pressed and the
    joystick at rest, the two builds' frames have the same effect. *)
Theorem C8_builds_agree_on_discrete
  (dx dz : R) (k : Controls) (touchJump : bool) (m : table) (r : Refs) (cam : Camera) :
  discrete dx -> discrete dz ->
  Buttons.direction dx dz = Joystick.direction dx dz /\
  Buttons.useFrame
    (Buttons.MkInput k (MkControls false false false false touchJump)) m r cam
  = Joystick.useFrame (Joystick.MkInput k (Joystick.V2 0 0) touchJump) m r cam.
Proof.
  intros Hx Hz. split; [apply directions_agree_on_discrete; assumption |].
  set (bi := Buttons.MkInput k (MkControls false false false false touchJump)).
  set (ji := Joystick.MkInput k (Joystick.V2 0 0) touchJump).
  destruct (Rlt_dec (at1 (pos r)) (-5)) as [Hy | Hy].
  - rewrite Buttons_useFrame_reset, Joystick_useFrame_reset by exact Hy. reflexivity.
  - apply Rnot_lt_le in Hy.
    rewrite Buttons_useFrame_active, Joystick_useFrame_active by exact Hy.
    assert (Hi : Buttons.intent bi = Joystick.intent ji).
    { unfold Buttons.intent, Joystick.intent, Joystick.keyAxes, bi, ji.
      cbv zeta. cbn [fst snd Buttons.keyboard Buttons.mobileInput Joystick.keyboard
                     Joystick.joystickVector Joystick.x Joystick.y
                     forward backward left right].
      rewrite !orb_false_r, !neq0_else_0. reflexivity. }
    assert (Hj : Buttons.jumpIntent bi = Joystick.jumpIntent ji) by reflexivity.
    rewrite <- Hi, <- Hj.
    destruct (Buttons_intent_discrete bi) as [Hbx Hbz].
    rewrite (directions_agree_on_discrete _ _ Hbx Hbz). reflexivity.
Qed.

Lemma C8_builds_agree_on_discrete_witness :
  Buttons.direction 1 (-1) = Joystick.direction 1 (-1).
Proof.
  pose (k := MkControls true false false true false).
  pose (r := MkRefs (V3 0 0.25 0) (V3 0 0 0) false).
  pose (cam := MkCamera (V3 0 5 10) (V3 0 0 0)).
  assert (H1 : discrete 1) by (unfold discrete; tauto).
  assert (H2 : discrete (-1)) by (unfold discrete; tauto).
  exact (proj1 (C8_builds_agree_on_discrete 1 (-1) k false ∅ r cam H1 H2)).
Defined.

(** ** Keyboard against joystick *)

(** The claim as it is written fails: with only [left] held and the
    stick at [(0.3, 0.7)] the keyboard vector is [(-1, 0)], not zero, yet
    the intent is [(-1, 0.7)]: the stick's Y component gets through. *)
Lemma C7_keyboard_does_not_mask_other_axis :
  let i := Joystick.MkInput (MkControls false false true false false)
                            (Joystick.V2 0.3 0.7) false in
  Joystick.keyAxes (Joystick.keyboard i) = (-1 + 0, 0 + 0) /\
  Joystick.keyAxes (Joystick.keyboard i) <> (0, 0) /\
  Joystick.intent i = (-1 + 0, 0.7) /\
  Joystick.intent i <> Joystick.keyAxes (Joystick.keyboard i) /\
  ~ (forall j : Joystick.Input,
       Joystick.keyAxes (Joystick.keyboard j) <> (0, 0) ->
       Joystick.intent j = Joystick.keyAxes (Joystick.keyboard j)).
Proof.
  intros i.
  assert (Hk : Joystick.keyAxes (Joystick.keyboard i) = (-1 + 0, 0 + 0)) by reflexivity.
  assert (Hi : Joystick.intent i = (-1 + 0, 0.7)).
  { unfold Joystick.intent. cbv zeta. rewrite Hk. cbn [fst snd].
    unfold Js.neq0.
    destruct (Req_dec_T (-1 + 0) 0) as [H | _]; [lra |].
    destruct (Req_dec_T (0 + 0) 0) as [_ | H]; [reflexivity | lra]. }
  assert (Hnz : Joystick.keyAxes (Joystick.keyboard i) <> (0, 0)).
  { rewrite Hk. intros H. injection H as H1 H2. lra. }
  assert (Hne : Joystick.intent i <> Joystick.keyAxes (Joystick.keyboard i)).
  { rewrite Hi, Hk. intros H. injection H as H1. lra. }
  repeat split; try assumption.
  intros Hall. exact (Hne (Hall i Hnz)).
Qed.

(** C7 (amended).  In the analog-stick build priority is settled axis
    by axis: on the X axis the keyboard value [kx] is the intent when it
    is not 0 and the stick's X otherwise, and likewise on the Z axis with
    [kz] and the stick's Y.  So the keyboard vector is the whole intent
    when both its components are nonzero, and the stick vector is the
    whole intent when the keyboard vector is zero. *)
Theorem C7_keyboard_priority_per_axis (i : Joystick.Input) :
  let kx := fst (Joystick.keyAxes (Joystick.keyboard i)) in
  let kz := snd (Joystick.keyAxes (Joystick.keyboard i)) in
  (kx <> 0 -> fst (Joystick.intent i) = kx) /\
  (kx = 0 -> fst (Joystick.intent i) = Joystick.x (Joystick.joystickVector i)) /\
  (kz <> 0 -> snd (Joystick.intent i) = kz) /\
  (kz = 0 -> snd (Joystick.intent i) = Joystick.y (Joystick.joystickVector i)) /\
  (kx <> 0 -> kz <> 0 -> Joystick.intent i = (kx, kz)) /\
  (kx = 0 -> kz = 0 ->
   Joystick.intent i
   = (Joystick.x (Joystick.joystickVector i), Joystick.y (Joystick.joystickVector i))).
Proof.
  intros kx kz. unfold Joystick.intent. cbv zeta. fold kx kz. cbn [fst snd].
  unfold Js.neq0.
  destruct (Req_dec_T kx 0) as [Hx | Hx], (Req_dec_T kz 0) as [Hz | Hz];
    repeat split; intros; try reflexivity; try contradiction; congruence.
Qed.

Lemma C7_keyboard_priority_per_axis_witness :
  let i := Joystick.MkInput (MkControls false false true false false)
                            (Joystick.V2 0.3 0.7) false in
  fst (Joystick.intent i) = -1 + 0 /\ snd (Joystick.intent i) = 0.7.
Proof.
  intros i.
  destruct (C7_keyboard_priority_per_axis i) as (Hx & _ & _ & Hz & _).
  split.
  - apply Hx. simpl. lra.
  - apply Hz. simpl. lra.
Defined.

(** ** Jump edge detection over frame sequences *)

Lemma isImpulse_9 (a b : R) : isImpulse (velocity_set a 9 b) = true.
Proof. simpl. destruct (Req_dec_T 9 9) as [_ | H]; [reflexivity | contradiction]. Qed.

Lemma isImpulse_other (a vy b : R) : vy <> 9 -> isImpulse (velocity_set a vy b) = false.
Proof. intros H. simpl. destruct (Req_dec_T vy 9) as [E | _]; [contradiction | reflexivity]. Qed.

Lemma grounded_not_9 (vy : R) : Rabs vy < 0.5 -> vy <> 9.
Proof. intros H E. subst vy. rewrite Rabs_right in H; lra. Qed.

Lemma risingEdges_held (n : nat) : risingEdges true (repeat true n) = repeat false n.
Proof. induction n as [| n IH]; simpl; [reflexivity | now rewrite IH]. Qed.

Lemma risingEdges_released (prev : bool) (n : nat) :
  risingEdges prev (repeat false n) = repeat false n.
Proof.
  revert prev. induction n as [| n IH]; intros prev; simpl; [reflexivity | now rewrite IH].
Qed.

Lemma last_cons_shift (a d : bool) (l : list bool) :
  List.last (a :: l) d = List.last l a.
Proof.
  revert a d. induction l as [| b l IH]; intros a d; [reflexivity |].
  change (List.last (a :: b :: l) d) with (List.last (b :: l) d).
  rewrite (IH b d), (IH b a). reflexivity.
Qed.

Lemma risingEdges_app (prev : bool) (s1 s2 : list bool) :
  risingEdges prev (s1 ++ s2)
  = risingEdges prev s1 ++ risingEdges (List.last s1 prev) s2.
Proof.
  revert prev. induction s1 as [| a s1 IH]; intros prev; [reflexivity |].
  cbn [app risingEdges]. rewrite IH, last_cons_shift. reflexivity.
Qed.

Lemma last_repeat (b d : bool) (n : nat) : List.last (repeat b (S n)) d = b.
Proof. induction n as [| n IH]; [reflexivity | exact IH]. Qed.

(** Press for [n + 1] frames, release for [k + 1], press for [p + 1]:
    one edge at the start of each press. *)
Lemma risingEdges_press_release_press (n k p : nat) :
  risingEdges false (repeat true (S n) ++ repeat false (S k) ++ repeat true (S p))
  = (true :: repeat false n) ++ repeat false (S k) ++ (true :: repeat false p).
Proof.
  rewrite !risingEdges_app, !last_repeat.
  cbn [repeat risingEdges andb negb].
  rewrite !risingEdges_held, risingEdges_released. reflexivity.
Qed.

Section EdgeDetector.

(** Any build whose frame, off the reset branch, issues the steering
    command, then the jump write under the edge condition, and stores
    the jump intent as the new [wasJumpPressed]. *)
Variable I : Type.
Variable frame : I -> table -> Refs -> Camera -> FrameOut.
Variable jumpOf : I -> bool.
Variable dirOf : I -> R * R.

Hypothesis frame_active :
  forall (i : I) (m : table) (r : Refs) (cam : Camera),
    -5 <= at1 (pos r) ->
    frame i m r cam
    = MkFrameOut
        (velocity_set (fst (dirOf i) + rideExtraX m r) (at1 (vel r)) (snd (dirOf i))
         :: (if jumpOf i && negb (wasJumpPressed r) && isGrounded r
             then [velocity_set (at0 (vel r)) 9 (at2 (vel r))] else []))
        (MkRefs (pos r) (vel r) (jumpOf i))
        (followCamera r cam).

Lemma frame_edge (t : Tick I) (was : bool) (cam : Camera) :
  tickGrounded t -> tickActive t ->
  impulseFired (frame (input t) (platformsMap t) (refsAt t was) cam)
  = jumpOf (input t) && negb was /\
  wasJumpPressed (refs' (frame (input t) (platformsMap t) (refsAt t was) cam))
  = jumpOf (input t).
Proof using frame_active.
  intros Hg Ha. unfold tickGrounded in Hg. unfold tickActive in Ha.
  rewrite frame_active by (simpl; lra).
  split; [| reflexivity].
  unfold impulseFired. cbn [calls existsb refsAt vel pos wasJumpPressed].
  rewrite isImpulse_other by (apply grounded_not_9, Hg).
  assert (Hgr : isGrounded (refsAt t was) = true) by (apply isGrounded_true; exact Hg).
  rewrite Hgr, andb_true_r.
  destruct (jumpOf (input t) && negb was); simpl; [| reflexivity].
  destruct (Req_dec_T 9 9); [reflexivity | contradiction].
Qed.

Lemma run_edges (ticks : list (Tick I)) :
  forall (was : bool) (cam : Camera),
    Forall (fun t => tickGrounded t /\ tickActive t) ticks ->
    map impulseFired (run frame was cam ticks)
    = risingEdges was (map (fun t => jumpOf (input t)) ticks).
Proof using frame_active.
  induction ticks as [| t ts IH]; intros was cam Hall; [reflexivity |].
  apply Forall_cons_1 in Hall. destruct Hall as [[Hg Ha] Hts].
  destruct (frame_edge t was cam Hg Ha) as [Hfire Hwas].
  cbn [run map risingEdges]. rewrite Hfire, Hwas.
  f_equal. apply IH, Hts.
Qed.

End EdgeDetector.

Ltac tick_at_rest :=
  first
    [ split; tick_at_rest
    | unfold tickGrounded; simpl; rewrite Rabs_R0; lra
    | unfold tickActive; simpl; lra ].

(** C4.  Across any sequence of frames in which the player is grounded
    (such a player rests on a body at height 0, so none of these frames
    takes the reset branch: [py >= -5]), a frame sets the vertical
    velocity to 9 exactly when the jump intent is pressed on it and was
    not pressed on the frame before (for the first frame: and
    [wasJumpPressed] was false before it).  Hence a press held for
    several frames gives one impulse, on its first frame, and none while
    the previous frame had jump pressed; releasing for at least one frame
    and pressing again gives a second impulse, on the first frame of the
    second press. *)
Theorem C4_jump_rising_edge
  (was : bool) (cam : Camera)
  (bticks : list (Tick Buttons.Input)) (jticks : list (Tick Joystick.Input))
  (n k p : nat) :
  Forall (fun t => tickGrounded t /\ tickActive t) bticks ->
  Forall (fun t => tickGrounded t /\ tickActive t) jticks ->
  map impulseFired (run Buttons.useFrame was cam bticks)
  = risingEdges was (map (fun t => Buttons.jumpIntent (input t)) bticks) /\
  map impulseFired (run Joystick.useFrame was cam jticks)
  = risingEdges was (map (fun t => Joystick.jumpIntent (input t)) jticks) /\
  (was = false ->
   map (fun t => Buttons.jumpIntent (input t)) bticks
   = repeat true (S n) ++ repeat false (S k) ++ repeat true (S p) ->
   map impulseFired (run Buttons.useFrame was cam bticks)
   = (true :: repeat false n) ++ repeat false (S k) ++ (true :: repeat false p)) /\
  (was = false ->
   map (fun t => Joystick.jumpIntent (input t)) jticks
   = repeat true (S n) ++ repeat false (S k) ++ repeat true (S p) ->
   map impulseFired (run Joystick.useFrame was cam jticks)
   = (true :: repeat false n) ++ repeat false (S k) ++ (true :: repeat false p)).
Proof.
  intros Hb Hj.
  pose proof (run_edges _ _ _ _ Buttons_useFrame_active bticks was cam Hb) as Eb.
  pose proof (run_edges _ _ _ _ Joystick_useFrame_active jticks was cam Hj) as Ej.
  split; [exact Eb |]. split; [exact Ej |].
  split; intros -> Hsig.
  - rewrite Eb, Hsig. apply risingEdges_press_release_press.
  - rewrite Ej, Hsig. apply risingEdges_press_release_press.
Qed.

Lemma C4_jump_rising_edge_witness :
  let cam := MkCamera (V3 0 5 10) (V3 0 0 0) in
  let none := MkControls false false false false false in
  let bt (j : bool) :=
    MkTick (Buttons.MkInput (MkControls false false false false j) none)
           (∅ : table) (V3 0 0.25 0) (V3 0 0 0) in
  let jt (j : bool) :=
    MkTick (Joystick.MkInput none (Joystick.V2 0 0) j)
           (∅ : table) (V3 0 0.25 0) (V3 0 0 0) in
  map impulseFired (run Buttons.useFrame false cam [bt true; bt true; bt false; bt true])
  = [true; false; false; true] /\
  map impulseFired (run Joystick.useFrame false cam [jt true; jt true; jt false; jt true])
  = [true; false; false; true].
Proof.
  intros cam none bt jt.
  assert (Hb : Forall (fun t => tickGrounded t /\ tickActive t)
                      [bt true; bt true; bt false; bt true])
    by (repeat constructor; tick_at_rest).
  assert (Hj : Forall (fun t => tickGrounded t /\ tickActive t)
                      [jt true; jt true; jt false; jt true])
    by (repeat constructor; tick_at_rest).
  destruct (C4_jump_rising_edge false cam _ _ 1 0 0 Hb Hj) as (_ & _ & Pb & Pj).
  split.
  - exact (Pb eq_refl eq_refl).
  - exact (Pj eq_refl eq_refl).
Defined.

(** ** The velocity table and indices past the last platform *)

Lemma movingPlatforms_indices (random : nat -> R) :
  map Scene.index (Scene.movingPlatforms random) = [0; 1; 2; 3; 4; 5; 6; 7; 8; 9]%Z.
Proof. reflexivity. Qed.

Lemma movingPlatform_index_range (random : nat -> R) (p : Scene.Props) :
  p ∈ Scene.movingPlatforms random -> (0 <= Scene.index p <= 9)%Z.
Proof.
  intros H. apply list_elem_of_In in H. apply (in_map Scene.index) in H.
  rewrite movingPlatforms_indices in H. simpl in H. intuition lia.
Qed.

Lemma useFrame_table (p : Scene.Props) (elapsed : R) (m : table) :
  fst (Scene.useFrame p elapsed m) = <[Scene.index p := Scene.platformVx p elapsed]> m.
Proof. reflexivity. Qed.

(** The invariant of the shared table: every key is a platform index. *)
Lemma reachable_keys (random : nat -> R) (m : table) :
  Scene.reachable random m -> forall k : Z, is_Some (m !! k) -> (0 <= k <= 9)%Z.
Proof.
  induction 1 as [| m p elapsed Hm IH Hp]; intros k Hk.
  - rewrite lookup_empty in Hk. destruct Hk as [v Hv]. discriminate Hv.
  - rewrite useFrame_table in Hk. apply lookup_insert_is_Some in Hk.
    destruct Hk as [<- | [_ Hk]].
    + apply (movingPlatform_index_range random), Hp.
    + apply IH, Hk.
Qed.

Lemma foldl_frames_reachable (random : nat -> R) (elapsed : R) (ps : list Scene.Props) :
  forall m : table,
    (forall p, p ∈ ps -> p ∈ Scene.movingPlatforms random) ->
    Scene.reachable random m ->
    Scene.reachable random (foldl (fun m' p => fst (Scene.useFrame p elapsed m')) m ps).
Proof.
  induction ps as [| p ps IH]; intros m Hps Hm; [exact Hm |].
  simpl. apply IH.
  - intros q Hq. apply Hps. right. exact Hq.
  - apply Scene.reach_frame; [exact Hm |]. apply Hps. left.
Qed.

Lemma platformsFrame_reachable (random : nat -> R) (elapsed : R) (m : table) :
  Scene.reachable random m -> Scene.reachable random (Scene.platformsFrame random elapsed m).
Proof.
  intros Hm. unfold Scene.platformsFrame.
  apply foldl_frames_reachable; [intros p Hp; exact Hp | exact Hm].
Qed.

Lemma foldl_frames_dom (elapsed : R) (ps : list Scene.Props) :
  forall m : table,
    dom (foldl (fun m' p => fst (Scene.useFrame p elapsed m')) m ps)
    = dom m ∪ list_to_set (map Scene.index ps).
Proof.
  induction ps as [| p ps IH]; intros m; cbn [foldl map list_to_set].
  - rewrite (right_id_L ∅ (∪)). reflexivity.
  - rewrite IH, useFrame_table, dom_insert_L.
    rewrite (comm_L (∪) {[Scene.index p]} (dom m)).
    rewrite <- (assoc_L (∪)). reflexivity.
Qed.

(** After every platform has run one frame the table has exactly the
    ten keys 0..9. *)
Lemma platformsFrame_dom (random : nat -> R) (elapsed : R) (m : table) :
  Scene.reachable random m ->
  dom (Scene.platformsFrame random elapsed m)
  = list_to_set [0; 1; 2; 3; 4; 5; 6; 7; 8; 9]%Z.
Proof.
  intros Hm. unfold Scene.platformsFrame.
  rewrite foldl_frames_dom, movingPlatforms_indices.
  assert (Hsub : forall k, k ∈ dom m -> (0 <= k <= 9)%Z).
  { intros k Hk. apply (reachable_keys random m Hm). apply elem_of_dom. exact Hk. }
  apply set_eq. intros k. rewrite elem_of_union. split; [| intros Hk; right; exact Hk].
  intros [Hk | Hk]; [| exact Hk].
  apply Hsub in Hk. rewrite elem_of_list_to_set.
  assert (k = 0 \/ k = 1 \/ k = 2 \/ k = 3 \/ k = 4 \/ k = 5 \/ k = 6 \/ k = 7
          \/ k = 8 \/ k = 9)%Z as Hcases by lia.
  apply list_elem_of_In. simpl. intuition.
Qed.

Lemma rideMatch_extraX (m : table) (r : Refs) (idx : Z) :
  rideMatch r = Some idx -> rideExtraX m r = get_or_0 m idx.
Proof.
  unfold rideMatch, rideExtraX. intros H.
  destruct (isGrounded r && (at1 (pos r) >? -0.1)); simpl in H; [| discriminate].
  destruct (rideAccept (at2 (pos r))); [| discriminate].
  injection H as <-. reflexivity.
Qed.

Lemma goalPosition_Z (random : nat -> R) : at2 (Scene.goalPosition random) = -75.
Proof.
  unfold Scene.goalPosition. cbn [at2].
  change (length (Scene.platforms random)) with 10%nat.
  change (Z.of_nat 10) with 10%Z. lra.
Qed.

(** C10.  [App] mounts ten platforms, with indices 0..9; the shared
    table, which starts empty and is written only by their frames, never
    holds a key outside 0..9, and holds exactly those ten once every
    platform has run a frame.  The resolver accepts any candidate index
    that is at least 0 and within 2.5 of its target Z, with no upper
    bound; an accepted index of 10 or more finds no entry and the carry
    term is 0.  The centre of the goal volume, at Z = -75, is such a
    place: the index there is 11. *)
Theorem C10_table_keys_and_far_indices
  (random : nat -> R) (m : table) (r : Refs) (elapsed : R) :
  Scene.reachable random m ->
  map Scene.index (Scene.movingPlatforms random) = [0; 1; 2; 3; 4; 5; 6; 7; 8; 9]%Z /\
  (forall k : Z, is_Some (m !! k) -> (0 <= k <= 9)%Z) /\
  dom (Scene.platformsFrame random elapsed m)
    = list_to_set [0; 1; 2; 3; 4; 5; 6; 7; 8; 9]%Z /\
  (forall i : Z, (0 <= i)%Z -> rideAccept (targetZ i) = true) /\
  (forall idx : Z,
     rideMatch r = Some idx -> (10 <= idx)%Z ->
     m !! idx = None /\ rideExtraX m r = 0) /\
  at2 (Scene.goalPosition random) = -75 /\
  (isGrounded r = true -> at1 (pos r) > -0.1 ->
   at2 (pos r) = at2 (Scene.goalPosition random) ->
   rideMatch r = Some 11%Z /\ rideExtraX m r = 0).
Proof.
  intros Hm.
  assert (Hfar : forall idx : Z,
             rideMatch r = Some idx -> (10 <= idx)%Z ->
             m !! idx = None /\ rideExtraX m r = 0).
  { intros idx Hmatch Hidx.
    assert (Hnone : m !! idx = None).
    { destruct (m !! idx) as [vx |] eqn:E; [| reflexivity].
      assert (0 <= idx <= 9)%Z by (apply (reachable_keys random m Hm); rewrite E; eauto).
      lia. }
    split; [exact Hnone |].
    rewrite (rideMatch_extraX m r idx Hmatch). apply get_or_0_None, Hnone. }
  split; [apply movingPlatforms_indices |].
  split; [exact (reachable_keys random m Hm) |].
  split; [apply platformsFrame_dom, Hm |].
  split.
  { intros i Hi. replace (targetZ i) with (targetZ i + 0) by ring.
    apply rideAccept_inside; [exact Hi | lra]. }
  split; [exact Hfar |].
  split; [apply goalPosition_Z |].
  intros Hg Hy Hz. rewrite goalPosition_Z in Hz.
  assert (Hmatch : rideMatch r = Some 11%Z).
  { apply rideMatch_inside with (d := 1); try assumption; try lia; try lra.
    rewrite Hz. unfold targetZ. lra. }
  split; [exact Hmatch |].
  apply (Hfar 11%Z Hmatch). lia.
Qed.

Lemma C10_table_keys_and_far_indices_witness :
  let random := fun _ : nat => 0.5 in
  let m := Scene.platformsFrame random 0 ∅ in
  let r := MkRefs (V3 0 0.75 (-75)) (V3 0 0 0) false in
  dom m = list_to_set [0; 1; 2; 3; 4; 5; 6; 7; 8; 9]%Z /\
  rideMatch r = Some 11%Z /\ rideExtraX m r = 0.
Proof.
  intros random m r.
  assert (Hm : Scene.reachable random m)
    by (apply platformsFrame_reachable, Scene.reach_new).
  destruct (C10_table_keys_and_far_indices random m r 0 Hm)
    as (_ & _ & _ & _ & _ & Hgoal & Hat).
  destruct (C10_table_keys_and_far_indices random ∅ r 0 (Scene.reach_new random))
    as (_ & _ & Hdom & _).
  split; [exact Hdom |].
  apply Hat.
  - apply isGrounded_true. simpl. rewrite Rabs_R0. lra.
  - simpl. lra.
  - rewrite Hgoal. reflexivity.
Defined.

(** * Further properties of the code *)

(** ** The resolver against the placement rule *)

Lemma rideAccept_true_inv (pz : R) :
  rideAccept pz = true ->
  (0 <= rideIndex pz)%Z /\ Rabs (pz - targetZ (rideIndex pz)) < 2.5.
Proof.
  unfold rideAccept. cbv zeta. intros H.
  apply andb_true_iff in H. destruct H as [Hi Hd].
  split; [apply Z.leb_le, Hi | apply lt_true_iff, Hd].
Qed.

Lemma in_band_offset (pz : R) (i : Z) :
  Rabs (pz - targetZ i) < 2.5 ->
  pz = targetZ i + (pz - targetZ i) /\ -2.5 < pz - targetZ i < 2.5.
Proof.
  intros H. split; [ring |].
  apply Rabs_def2 in H. lra.
Qed.

Lemma rideIndex_in_band (pz : R) (i : Z) :
  Rabs (pz - targetZ i) < 2.5 -> rideIndex pz = i.
Proof.
  intros H. destruct (in_band_offset pz i H) as [E Hd].
  rewrite E. apply rideIndex_near. lra.
Qed.

Lemma rideAccept_in_band (pz : R) (i : Z) :
  (0 <= i)%Z -> Rabs (pz - targetZ i) < 2.5 -> rideAccept pz = true.
Proof.
  intros Hi H. destruct (in_band_offset pz i H) as [E Hd].
  rewrite E. apply rideAccept_inside; assumption.
Qed.

(** X1.  The index recovered by rounding is exactly the placement rule
    inverted: a Z position is accepted if and only if it lies strictly
    within 2.5 of the target Z of some platform index [i >= 0]; that
    index is then unique and is the one the resolver computes. *)
Theorem resolver_accepts_exactly_the_bands (pz : R) :
  (rideAccept pz = true <->
   exists i : Z, (0 <= i)%Z /\ Rabs (pz - targetZ i) < 2.5) /\
  (forall i j : Z,
     Rabs (pz - targetZ i) < 2.5 -> Rabs (pz - targetZ j) < 2.5 ->
     i = j /\ rideIndex pz = i).
Proof.
  split.
  - split.
    + intros H. exists (rideIndex pz). apply rideAccept_true_inv, H.
    + intros (i & Hi & H). apply (rideAccept_in_band pz i Hi H).
  - intros i j Hi Hj.
    pose proof (rideIndex_in_band pz i Hi) as Ei.
    pose proof (rideIndex_in_band pz j Hj) as Ej.
    split; congruence.
Qed.

Lemma resolver_accepts_exactly_the_bands_witness :
  rideAccept (-23.5) = true /\ rideIndex (-23.5) = 2%Z.
Proof.
  assert (H : Rabs (-23.5 - targetZ 2) < 2.5).
  { unfold targetZ. apply Rabs_def1; lra. }
  destruct (resolver_accepts_exactly_the_bands (-23.5)) as [Hacc Huniq].
  split.
  - apply Hacc. exists 2%Z. split; [lia | exact H].
  - exact (proj2 (Huniq 2%Z 2%Z H H)).
Defined.

(** X2.  Nothing is carried short of the first platform: for a player
    whose Z is greater than -7.5 (the start pad at Z = 0 included) the
    resolver rejects its candidate and both builds issue the steering
    command with no platform term, whatever the table holds. *)
Theorem no_carry_before_first_platform
  (bi : Buttons.Input) (ji : Joystick.Input) (m : table) (r : Refs) (cam : Camera) :
  at2 (pos r) > -7.5 ->
  rideAccept (at2 (pos r)) = false /\
  rideMatch r = None /\
  rideExtraX m r = 0 /\
  (at1 (pos r) >= -5 ->
   hd_error (calls (Buttons.useFrame bi m r cam))
   = Some (velocity_set
             (fst (Buttons.direction (fst (Buttons.intent bi)) (snd (Buttons.intent bi))) + 0)
             (at1 (vel r))
             (snd (Buttons.direction (fst (Buttons.intent bi)) (snd (Buttons.intent bi))))) /\
   hd_error (calls (Joystick.useFrame ji m r cam))
   = Some (velocity_set
             (fst (Joystick.direction (fst (Joystick.intent ji)) (snd (Joystick.intent ji))) + 0)
             (at1 (vel r))
             (snd (Joystick.direction (fst (Joystick.intent ji)) (snd (Joystick.intent ji)))))).
Proof.
  intros Hz.
  assert (Hrej : rideAccept (at2 (pos r)) = false).
  { destruct (rideAccept (at2 (pos r))) eqn:E; [| reflexivity].
    destruct (rideAccept_true_inv _ E) as [Hi Hd].
    apply Rabs_def2 in Hd. unfold targetZ in Hd.
    apply IZR_le in Hi. lra. }
  assert (Hx : rideExtraX m r = 0).
  { unfold rideExtraX. rewrite Hrej.
    destruct (isGrounded r && (at1 (pos r) >? -0.1)); reflexivity. }
  split; [exact Hrej |].
  split; [unfold rideMatch; rewrite Hrej, andb_false_r; reflexivity |].
  split; [exact Hx |].
  intros Hy. apply Rge_le in Hy.
  rewrite Buttons_useFrame_active, Joystick_useFrame_active by exact Hy.
  cbn [calls hd_error]. rewrite Hx. split; reflexivity.
Qed.

Lemma no_carry_before_first_platform_witness :
  rideExtraX {[ 0%Z := 5 ]} (MkRefs (V3 0 0.75 0) (V3 0 0 0) false) = 0.
Proof.
  pose (none := MkControls false false false false false).
  pose (cam := MkCamera (V3 0 5 10) (V3 0 0 0)).
  refine (proj1 (proj2 (proj2
    (no_carry_before_first_platform
       (Buttons.MkInput none none) (Joystick.MkInput none (Joystick.V2 0 0) false)
       {[ 0%Z := 5 ]} (MkRefs (V3 0 0.75 0) (V3 0 0 0) false) cam _)))).
  simpl. lra.
Defined.

(** ** The oscillator *)

Lemma platformX_unfold (p : Scene.Props) (t : R) :
  Scene.platformX p t
  = at0 (Scene.position (Scene.data p))
    + sin ((t + Scene.offset (Scene.data p)) * Scene.speed (Scene.data p))
      * Scene.range (Scene.data p).
Proof. reflexivity. Qed.

Lemma platformVx_unfold (p : Scene.Props) (t : R) :
  Scene.platformVx p t
  = cos ((t + Scene.offset (Scene.data p)) * Scene.speed (Scene.data p))
    * Scene.speed (Scene.data p) * Scene.range (Scene.data p).
Proof. reflexivity. Qed.

Lemma Rabs_le_mult_unit (c a : R) : -1 <= c <= 1 -> Rabs (c * a) <= Rabs a.
Proof.
  intros Hc. rewrite Rabs_mult.
  assert (Rabs c <= 1) by (apply Rabs_le; lra).
  pose proof (Rabs_pos a). nra.
Qed.

(** X3.  A platform swings about its base X by at most its amplitude and
    never moves faster than [|speed * range|]; position and velocity
    stay on the ellipse
    [(speed * (x - x0))^2 + vx^2 = (speed * range)^2], for every clock
    reading and every choice of offset, range and speed. *)
Theorem oscillator_stays_on_its_ellipse (p : Scene.Props) (t : R) :
  Rabs (Scene.platformX p t - at0 (Scene.position (Scene.data p)))
    <= Rabs (Scene.range (Scene.data p)) /\
  Rabs (Scene.platformVx p t)
    <= Rabs (Scene.speed (Scene.data p) * Scene.range (Scene.data p)) /\
  Rsqr (Scene.speed (Scene.data p)
        * (Scene.platformX p t - at0 (Scene.position (Scene.data p))))
  + Rsqr (Scene.platformVx p t)
  = Rsqr (Scene.speed (Scene.data p) * Scene.range (Scene.data p)).
Proof.
  rewrite platformX_unfold, platformVx_unfold.
  set (ph := (t + Scene.offset (Scene.data p)) * Scene.speed (Scene.data p)).
  set (sp := Scene.speed (Scene.data p)). set (rg := Scene.range (Scene.data p)).
  set (x0 := at0 (Scene.position (Scene.data p))).
  split; [| split].
  - replace (x0 + sin ph * rg - x0) with (sin ph * rg) by ring.
    apply Rabs_le_mult_unit, SIN_bound.
  - replace (cos ph * sp * rg) with (cos ph * (sp * rg)) by ring.
    apply Rabs_le_mult_unit, COS_bound.
  - pose proof (sin2_cos2 ph) as H. unfold Rsqr in *.
    replace (sp * (x0 + sin ph * rg - x0) * (sp * (x0 + sin ph * rg - x0))
             + cos ph * sp * rg * (cos ph * sp * rg))
      with ((sin ph * sin ph + cos ph * cos ph) * (sp * rg * (sp * rg))) by ring.
    rewrite H. ring.
Qed.

(** X4.  The motion is periodic: one period [2 PI / speed] later (for a
    nonzero speed) the platform writes the same position and publishes
    the same velocity. *)
Theorem oscillator_is_periodic (p : Scene.Props) (t : R) (m : table) :
  Scene.speed (Scene.data p) <> 0 ->
  Scene.platformX p (t + 2 * PI / Scene.speed (Scene.data p)) = Scene.platformX p t /\
  Scene.platformVx p (t + 2 * PI / Scene.speed (Scene.data p)) = Scene.platformVx p t /\
  Scene.useFrame p (t + 2 * PI / Scene.speed (Scene.data p)) m = Scene.useFrame p t m.
Proof.
  intros Hs.
  assert (Hph : forall off : R,
             (t + 2 * PI / Scene.speed (Scene.data p) + off) * Scene.speed (Scene.data p)
             = (t + off) * Scene.speed (Scene.data p) + 2 * INR 1 * PI).
  { intros off. simpl. field. exact Hs. }
  assert (Hx : Scene.platformX p (t + 2 * PI / Scene.speed (Scene.data p))
               = Scene.platformX p t).
  { rewrite !platformX_unfold, Hph, sin_period. reflexivity. }
  assert (Hv : Scene.platformVx p (t + 2 * PI / Scene.speed (Scene.data p))
               = Scene.platformVx p t).
  { rewrite !platformVx_unfold, Hph, cos_period. reflexivity. }
  split; [exact Hx |]. split; [exact Hv |].
  change (Scene.useFrame p (t + 2 * PI / Scene.speed (Scene.data p)) m)
    with (<[Scene.index p := Scene.platformVx p (t + 2 * PI / Scene.speed (Scene.data p))]> m,
          [position_set (Scene.platformX p (t + 2 * PI / Scene.speed (Scene.data p)))
                        (at1 (Scene.position (Scene.data p)))
                        (at2 (Scene.position (Scene.data p)));
           velocity_set (Scene.platformVx p (t + 2 * PI / Scene.speed (Scene.data p))) 0 0]).
  rewrite Hx, Hv. reflexivity.
Qed.

Lemma oscillator_is_periodic_witness :
  let p := Scene.MkProps 3 (Scene.MkData (V3 1 0 (-28)) 0.5 4 2) in
  Scene.platformX p (7 + 2 * PI / 2) = Scene.platformX p 7.
Proof.
  intros p.
  refine (proj1 (oscillator_is_periodic p 7 ∅ _)).
  simpl. lra.
Defined.

(** ** The scene [App] builds *)

Lemma movingPlatforms_unfold (random : nat -> R) :
  Scene.movingPlatforms random
  = map (fun i => Scene.MkProps (Z.of_nat i) (Scene.platformAt random i)) (seq 0 10).
Proof. reflexivity. Qed.

Lemma mounted_inv (random : nat -> R) (p : Scene.Props) :
  p ∈ Scene.movingPlatforms random ->
  exists i : nat, (i < 10)%nat /\ p = Scene.MkProps (Z.of_nat i) (Scene.platformAt random i).
Proof.
  intros H. apply list_elem_of_In in H. rewrite movingPlatforms_unfold in H.
  apply in_map_iff in H. destruct H as (i & <- & Hi).
  apply in_seq in Hi. exists i. split; [lia | reflexivity].
Qed.

Lemma mounted_intro (random : nat -> R) (i : nat) :
  (i < 10)%nat ->
  Scene.MkProps (Z.of_nat i) (Scene.platformAt random i) ∈ Scene.movingPlatforms random.
Proof.
  intros Hi. apply list_elem_of_In. rewrite movingPlatforms_unfold.
  apply in_map_iff. exists i. split; [reflexivity | apply in_seq; lia].
Qed.

Lemma mounted_indices_NoDup (random : nat -> R) :
  NoDup (map Scene.index (Scene.movingPlatforms random)).
Proof.
  rewrite movingPlatforms_indices.
  repeat (constructor;
          [intros H; apply list_elem_of_In in H; simpl in H; intuition lia |]).
  constructor.
Qed.

Lemma mounted_layout (random : nat -> R) (p : Scene.Props) (t : R) :
  unitRandom random ->
  p ∈ Scene.movingPlatforms random ->
  (0 <= Scene.index p <= 9)%Z /\
  at1 (Scene.position (Scene.data p)) = 0 /\
  at2 (Scene.position (Scene.data p)) = targetZ (Scene.index p) /\
  2 <= Scene.range (Scene.data p) < 5 /\
  1 <= Scene.speed (Scene.data p) < 2.5 /\
  -9 < Scene.platformX p t < 9 /\
  Rabs (Scene.platformVx p t) < 12.5.
Proof.
  intros Hr Hp. destruct (mounted_inv random p Hp) as (i & Hi & ->).
  rewrite platformX_unfold, platformVx_unfold.
  cbn [Scene.index Scene.data Scene.position Scene.range Scene.speed Scene.offset
       Scene.platformAt at0 at1 at2].
  set (ph := (t + random (4 * i + 1)%nat * PI * 2) * (1 + random (4 * i + 3)%nat * 1.5)).
  pose proof (Hr (4 * i)%nat) as H0. pose proof (Hr (4 * i + 2)%nat) as H2.
  pose proof (Hr (4 * i + 3)%nat) as H3.
  pose proof (SIN_bound ph) as Hs. pose proof (COS_bound ph) as Hc.
  split; [lia |]. split; [reflexivity |]. split; [reflexivity |].
  split; [lra |]. split; [lra |].
  set (sp := 1 + random (4 * i + 3)%nat * 1.5) in *.
  set (rg := 2 + random (4 * i + 2)%nat * 3) in *.
  assert (Hsp : 1 <= sp < 2.5) by (unfold sp; lra).
  assert (Hrg : 2 <= rg < 5) by (unfold rg; lra).
  assert (Hprod : 0 < sp * rg < 12.5) by nra.
  split.
  - split; nra.
  - replace (cos ph * sp * rg) with (cos ph * (sp * rg)) by ring.
    apply Rabs_def1; nra.
Qed.


(** X5.  Every platform [App] mounts sits at height 0 on the Z given by
    the placement rule for its index; with the random draws in [0, 1)
    its amplitude is in [2, 5), its speed in [1, 2.5), and at every clock
    reading its X stays strictly within 9 of the axis and its velocity is
    below 12.5 in magnitude. *)
Theorem mounted_platform_bounds (random : nat -> R) (p : Scene.Props) (t : R) :
  unitRandom random ->
  p ∈ Scene.movingPlatforms random ->
  (0 <= Scene.index p <= 9)%Z /\
  at1 (Scene.position (Scene.data p)) = 0 /\
  at2 (Scene.position (Scene.data p)) = targetZ (Scene.index p) /\
  2 <= Scene.range (Scene.data p) < 5 /\
  1 <= Scene.speed (Scene.data p) < 2.5 /\
  -9 < Scene.platformX p t < 9 /\
  Rabs (Scene.platformVx p t) < 12.5.
Proof. apply mounted_layout. Qed.

Lemma mounted_platform_bounds_witness :
  let random := fun _ : nat => 0.5 in
  let p := Scene.MkProps (Z.of_nat 4) (Scene.platformAt random 4) in
  Rabs (Scene.platformVx p 3) < 12.5.
Proof.
  intros random p.
  assert (Hr : unitRandom random) by (intros n; unfold random; lra).
  assert (Hp : p ∈ Scene.movingPlatforms random) by (apply mounted_intro; lia).
  exact (proj2 (proj2 (proj2 (proj2 (proj2 (proj2
    (mounted_platform_bounds random p 3 Hr Hp))))))).
Defined.

(** ** What the shared table holds *)

Lemma reachable_values (random : nat -> R) (m : table) :
  Scene.reachable random m ->
  forall (k : Z) (v : R),
    m !! k = Some v ->
    exists (p : Scene.Props) (t : R),
      p ∈ Scene.movingPlatforms random /\ Scene.index p = k /\ v = Scene.platformVx p t.
Proof.
  intros Hm. induction Hm as [| m p elapsed Hm IH Hp]; intros k v Hk.
  - rewrite lookup_empty in Hk. discriminate Hk.
  - rewrite useFrame_table in Hk.
    destruct (decide (Scene.index p = k)) as [E | E].
    + subst k. rewrite lookup_insert_eq in Hk. injection Hk as <-.
      exists p, elapsed. auto.
    + rewrite lookup_insert_ne in Hk by exact E. apply IH, Hk.
Qed.

Lemma foldl_frames_lookup_other (elapsed : R) (ps : list Scene.Props) (k : Z) :
  forall m : table,
    ~ In k (map Scene.index ps) ->
    foldl (fun m' p => fst (Scene.useFrame p elapsed m')) m ps !! k = m !! k.
Proof.
  induction ps as [| q ps IH]; intros m Hk; [reflexivity |].
  cbn [foldl]. rewrite IH.
  - rewrite useFrame_table. apply lookup_insert_ne.
    intros E. apply Hk. left. exact E.
  - intros H. apply Hk. right. exact H.
Qed.

Lemma foldl_frames_lookup (elapsed : R) (ps : list Scene.Props) (p : Scene.Props) :
  forall m : table,
    NoDup (map Scene.index ps) -> In p ps ->
    foldl (fun m' q => fst (Scene.useFrame q elapsed m')) m ps !! Scene.index p
    = Some (Scene.platformVx p elapsed).
Proof.
  induction ps as [| q ps IH]; intros m Hnd Hp; [destruct Hp |].
  cbn [map] in Hnd. apply NoDup_cons in Hnd. destruct Hnd as [Hq Hnd].
  cbn [foldl]. destruct Hp as [-> | Hp].
  - rewrite foldl_frames_lookup_other.
    + rewrite useFrame_table. apply lookup_insert_eq.
    + intros H. apply Hq. apply list_elem_of_In. exact H.
  - apply IH; assumption.
Qed.

Lemma platformsFrame_lookup (random : nat -> R) (elapsed : R) (m : table) (p : Scene.Props) :
  p ∈ Scene.movingPlatforms random ->
  Scene.platformsFrame random elapsed m !! Scene.index p
  = Some (Scene.platformVx p elapsed).
Proof.
  intros Hp. unfold Scene.platformsFrame. apply foldl_frames_lookup.
  - apply mounted_indices_NoDup.
  - apply list_elem_of_In, Hp.
Qed.

Lemma rideExtraX_le_entry (m : table) (r : Refs) (b : R) :
  0 < b ->
  (forall (k : Z) (v : R), m !! k = Some v -> Rabs v < b) ->
  Rabs (rideExtraX m r) < b.
Proof.
  intros Hb Hall. unfold rideExtraX, get_or_0.
  destruct (isGrounded r && (at1 (pos r) >? -0.1)); [| rewrite Rabs_R0; exact Hb].
  destruct (rideAccept (at2 (pos r))); [| rewrite Rabs_R0; exact Hb].
  destruct (m !! rideIndex (at2 (pos r))) as [v |] eqn:E; simpl.
  - apply (Hall _ _ E).
  - rewrite Rabs_R0. exact Hb.
Qed.

(** X6.  Whatever the shared table holds under a key is a velocity that
    the mounted platform with that index published at some clock
    reading; so, with the random draws in [0, 1), the carry term a frame
    of the player reads from it is always below 12.5 in magnitude. *)
Theorem table_holds_published_velocities
  (random : nat -> R) (m : table) (r : Refs) :
  unitRandom random ->
  Scene.reachable random m ->
  (forall (k : Z) (v : R),
     m !! k = Some v ->
     exists (p : Scene.Props) (t : R),
       p ∈ Scene.movingPlatforms random /\ Scene.index p = k /\
       v = Scene.platformVx p t) /\
  Rabs (rideExtraX m r) < 12.5.
Proof.
  intros Hr Hm. split; [exact (reachable_values random m Hm) |].
  apply rideExtraX_le_entry; [lra |].
  intros k v Hk.
  destruct (reachable_values random m Hm k v Hk) as (p & t & Hp & _ & ->).
  exact (proj2 (proj2 (proj2 (proj2 (proj2 (proj2
    (mounted_layout random p t Hr Hp))))))).
Qed.

Lemma table_holds_published_velocities_witness :
  let random := fun _ : nat => 0.5 in
  let m := Scene.platformsFrame random 2 ∅ in
  let r := MkRefs (V3 0 0.75 (-16)) (V3 0 0 0) false in
  Rabs (rideExtraX m r) < 12.5.
Proof.
  intros random m r.
  assert (Hr : unitRandom random) by (intros n; unfold random; lra).
  assert (Hm : Scene.reachable random m)
    by (apply platformsFrame_reachable, Scene.reach_new).
  exact (proj2 (table_holds_published_velocities random m r Hr Hm)).
Defined.

(** X7.  Publishing and reading compose: once every platform has run
    its frame at clock reading [t], the table holds under each mounted
    platform's index the velocity it published at [t], and a grounded
    player with [py > -0.1] whose Z is within 2.5 of that platform's Z
    gets exactly that velocity as carry term, whatever the table held
    before. *)
Theorem player_reads_what_platform_published
  (random : nat -> R) (t : R) (m : table) (p : Scene.Props) (r : Refs) :
  p ∈ Scene.movingPlatforms random ->
  Scene.platformsFrame random t m !! Scene.index p = Some (Scene.platformVx p t) /\
  (isGrounded r = true -> at1 (pos r) > -0.1 ->
   Rabs (at2 (pos r) - at2 (Scene.position (Scene.data p))) < 2.5 ->
   rideMatch r = Some (Scene.index p) /\
   rideExtraX (Scene.platformsFrame random t m) r = Scene.platformVx p t).
Proof.
  intros Hp.
  pose proof (platformsFrame_lookup random t m p Hp) as Hl.
  split; [exact Hl |].
  intros Hg Hy Hz.
  destruct (mounted_inv random p Hp) as (i & Hi & Ep).
  assert (Hpz : at2 (Scene.position (Scene.data p)) = targetZ (Scene.index p))
    by (rewrite Ep; reflexivity).
  assert (Hidx : (0 <= Scene.index p)%Z) by (rewrite Ep; simpl; lia).
  rewrite Hpz in Hz.
  destruct (in_band_offset _ _ Hz) as [E Hd].
  split.
  - apply rideMatch_inside with (d := at2 (pos r) - targetZ (Scene.index p)); assumption.
  - rewrite (rideExtraX_inside _ (Scene.index p)
               (at2 (pos r) - targetZ (Scene.index p)) r Hidx Hg Hy E Hd).
    apply get_or_0_Some, Hl.
Qed.

Lemma player_reads_what_platform_published_witness :
  let random := fun _ : nat => 0.5 in
  let p := Scene.MkProps (Z.of_nat 1) (Scene.platformAt random 1) in
  let r := MkRefs (V3 0 0.75 (-17)) (V3 0 0 0) false in
  rideExtraX (Scene.platformsFrame random 2 {[ 1%Z := 99 ]}) r = Scene.platformVx p 2.
Proof.
  intros random p r.
  assert (Hp : p ∈ Scene.movingPlatforms random) by (apply mounted_intro; lia).
  refine (proj2 (proj2 (player_reads_what_platform_published
                          random 2 {[ 1%Z := 99 ]} p r Hp) _ _ _)).
  - apply isGrounded_true. simpl. rewrite Rabs_R0. lra.
  - simpl. lra.
  - cbn [at2 pos Scene.position Scene.data Scene.platformAt p r].
    change (Z.of_nat 1) with 1%Z. apply Rabs_def1; lra.
Defined.

(** ** How fast the player can steer *)

Lemma sqrt_of_square (x y : R) : 0 <= y -> y * y = x -> sqrt x = y.
Proof. intros Hy E. apply sqrt_lem_1; [rewrite <- E; nra | exact Hy | exact E]. Qed.

Lemma Buttons_direction_speed (dx dz : R) :
  (dx = 0 /\ dz = 0 /\ Buttons.direction dx dz = (0, 0)) \/
  sqrt (fst (Buttons.direction dx dz) * fst (Buttons.direction dx dz)
        + snd (Buttons.direction dx dz) * snd (Buttons.direction dx dz)) = 6.
Proof.
  unfold Buttons.direction, Js.Math_sqrt, Js.gt, Js.lt, moveSpeed. cbv zeta.
  set (len := sqrt (dx * dx + dz * dz)).
  assert (Hpos : 0 <= len) by apply sqrt_pos.
  assert (Hsq : len * len = dx * dx + dz * dz) by (apply sqrt_sqrt; nra).
  destruct (Rlt_dec 0 len) as [H0 | H0]; cbn [fst snd].
  - right. apply sqrt_of_square; [lra |].
    transitivity (36 * (dx * dx + dz * dz) / (len * len)); [| field; lra].
    rewrite Hsq. field. rewrite <- Hsq. nra.
  - left. assert (len = 0) by lra.
    assert (dx * dx + dz * dz = 0) by nra.
    assert (dx = 0) by nra. assert (dz = 0) by nra. auto.
Qed.

Lemma steerCommand_speed (inputX inputZ : R) :
  sqrt (fst (steerCommand inputX inputZ) * fst (steerCommand inputX inputZ)
        + snd (steerCommand inputX inputZ) * snd (steerCommand inputX inputZ))
  = 6 * Rmin 1 (sqrt (inputX * inputX + inputZ * inputZ)).
Proof.
  unfold steerCommand, Js.gt, Js.lt, moveSpeed. cbv zeta.
  set (len := sqrt (inputX * inputX + inputZ * inputZ)).
  assert (Hpos : 0 <= len) by apply sqrt_pos.
  assert (Hsq : len * len = inputX * inputX + inputZ * inputZ) by (apply sqrt_sqrt; nra).
  destruct (Rlt_dec 1 len) as [H1 | H1]; cbn [fst snd].
  - rewrite Rmin_left by lra. apply sqrt_of_square; [lra |].
    transitivity (36 * (inputX * inputX + inputZ * inputZ) / (len * len)); [| field; lra].
    rewrite <- Hsq. field. lra.
  - rewrite Rmin_right by lra. apply sqrt_of_square; [lra |].
    transitivity (36 * (len * len)); [ring | rewrite Hsq; ring].
Qed.

(** X8.  Steering alone never exceeds the move speed.  In the
    discrete-button build the steering part of the command is either
    zero or has magnitude exactly 6; in the analog build its magnitude
    is 6 times the length of the input vector, capped at 6.  Only the
    platform term can take the X command beyond that. *)
Theorem steering_speed_is_capped
  (bi : Buttons.Input) (ji : Joystick.Input) (m : table) (r : Refs) (cam : Camera) :
  at1 (pos r) >= -5 ->
  (exists sx sz : R,
     hd_error (calls (Buttons.useFrame bi m r cam))
     = Some (velocity_set (sx + rideExtraX m r) (at1 (vel r)) sz) /\
     ((sx = 0 /\ sz = 0) \/ sqrt (sx * sx + sz * sz) = 6)) /\
  (exists sx sz : R,
     hd_error (calls (Joystick.useFrame ji m r cam))
     = Some (velocity_set (sx + rideExtraX m r) (at1 (vel r)) sz) /\
     sqrt (sx * sx + sz * sz)
     = 6 * Rmin 1 (sqrt (fst (Joystick.intent ji) * fst (Joystick.intent ji)
                         + snd (Joystick.intent ji) * snd (Joystick.intent ji))) /\
     sqrt (sx * sx + sz * sz) <= 6).
Proof.
  intros Hy. apply Rge_le in Hy. split.
  - eexists _, _. rewrite Buttons_useFrame_active by exact Hy.
    cbn [calls hd_error]. split; [reflexivity |].
    destruct (Buttons_direction_speed (fst (Buttons.intent bi)) (snd (Buttons.intent bi)))
      as [(_ & _ & E) | E].
    + left. rewrite E. split; reflexivity.
    + right. exact E.
  - eexists _, _. rewrite Joystick_useFrame_active by exact Hy.
    cbn [calls hd_error]. split; [reflexivity |].
    rewrite Joystick_direction_steerCommand, steerCommand_speed.
    split; [reflexivity |].
    pose proof (Rmin_l 1 (sqrt (fst (Joystick.intent ji) * fst (Joystick.intent ji)
                                + snd (Joystick.intent ji) * snd (Joystick.intent ji)))).
    lra.
Qed.

Lemma steering_speed_is_capped_witness :
  let r := MkRefs (V3 0 0.25 0) (V3 0 0 0) false in
  let cam := MkCamera (V3 0 5 10) (V3 0 0 0) in
  let ji := Joystick.MkInput (MkControls true false false false false)
                             (Joystick.V2 0.8 0.3) false in
  exists sx sz : R,
    hd_error (calls (Joystick.useFrame ji ∅ r cam))
    = Some (velocity_set (sx + rideExtraX ∅ r) (at1 (vel r)) sz) /\
    sqrt (sx * sx + sz * sz) <= 6.
Proof.
  intros r cam ji.
  pose (bi := Buttons.MkInput (MkControls true false false false false)
                              (MkControls false false false false false)).
  assert (Hy : at1 (pos r) >= -5) by (simpl; lra).
  destruct (proj2 (steering_speed_is_capped bi ji ∅ r cam Hy)) as (sx & sz & Hc & _ & Hs).
  exists sx, sz. split; [exact Hc | exact Hs].
Defined.

(** X9.  The discrete-button build treats its two sources alike: a
    press counts whichever source it comes from, so exchanging the
    keyboard state and the touch-button state leaves the frame's effect
    unchanged. *)
Theorem keyboard_and_touch_are_interchangeable
  (k t : Controls) (m : table) (r : Refs) (cam : Camera) :
  Buttons.useFrame (Buttons.MkInput k t) m r cam
  = Buttons.useFrame (Buttons.MkInput t k) m r cam.
Proof.
  assert (Hi : Buttons.intent (Buttons.MkInput k t) = Buttons.intent (Buttons.MkInput t k)).
  { unfold Buttons.intent. cbv zeta. cbn [Buttons.keyboard Buttons.mobileInput].
    rewrite (orb_comm (left k)), (orb_comm (right k)),
            (orb_comm (forward k)), (orb_comm (backward k)). reflexivity. }
  assert (Hj : Buttons.jumpIntent (Buttons.MkInput k t)
               = Buttons.jumpIntent (Buttons.MkInput t k))
    by apply orb_comm.
  destruct (Rlt_dec (at1 (pos r)) (-5)) as [Hy | Hy].
  - rewrite !Buttons_useFrame_reset by exact Hy. reflexivity.
  - apply Rnot_lt_le in Hy. rewrite !Buttons_useFrame_active by exact Hy.
    rewrite Hi, Hj. reflexivity.
Qed.

(** ** Holding jump, through resets and through the air *)

Lemma last_cons_default {A : Type} (a d : A) (l : list A) :
  List.last (a :: l) d = List.last l a.
Proof.
  revert a d. induction l as [| b l IH]; intros a d; [reflexivity |].
  change (List.last (a :: b :: l) d) with (List.last (b :: l) d).
  rewrite (IH b d), (IH b a). reflexivity.
Qed.

Section FrameRuns.

(** Any build with the two normal forms of the frame callback. *)
Variable I : Type.
Variable frame : I -> table -> Refs -> Camera -> FrameOut.
Variable jumpOf : I -> bool.
Variable dirOf : I -> R * R.

Hypothesis frame_reset :
  forall (i : I) (m : table) (r : Refs) (cam : Camera),
    at1 (pos r) < -5 ->
    frame i m r cam = MkFrameOut [position_set 0 5 0; velocity_set 0 0 0] r cam.

Hypothesis frame_active :
  forall (i : I) (m : table) (r : Refs) (cam : Camera),
    -5 <= at1 (pos r) ->
    frame i m r cam
    = MkFrameOut
        (velocity_set (fst (dirOf i) + rideExtraX m r) (at1 (vel r)) (snd (dirOf i))
         :: (if jumpOf i && negb (wasJumpPressed r) && isGrounded r
             then [velocity_set (at0 (vel r)) 9 (at2 (vel r))] else []))
        (MkRefs (pos r) (vel r) (jumpOf i))
        (followCamera r cam).

(** One frame: when the jump is written, and what the detector becomes. *)
Lemma frame_jump_cases (t : Tick I) (was : bool) (cam : Camera) :
  (at1 (sub_pos t) < -5 /\
   jumpWritten (frame (input t) (platformsMap t) (refsAt t was) cam) = false /\
   wasJumpPressed (refs' (frame (input t) (platformsMap t) (refsAt t was) cam)) = was /\
   camera' (frame (input t) (platformsMap t) (refsAt t was) cam) = cam) \/
  (-5 <= at1 (sub_pos t) /\
   jumpWritten (frame (input t) (platformsMap t) (refsAt t was) cam)
   = jumpOf (input t) && negb was && (Rabs (at1 (sub_vel t)) <? 0.5) /\
   wasJumpPressed (refs' (frame (input t) (platformsMap t) (refsAt t was) cam))
   = jumpOf (input t) /\
   camera' (frame (input t) (platformsMap t) (refsAt t was) cam)
   = followCamera (refsAt t was) cam).
Proof using frame_reset frame_active.
  destruct (Rlt_dec (at1 (sub_pos t)) (-5)) as [Hy | Hy].
  - left. rewrite frame_reset by exact Hy.
    split; [exact Hy |]. split; [reflexivity |]. split; reflexivity.
  - right. apply Rnot_lt_le in Hy. rewrite frame_active by exact Hy.
    split; [exact Hy |]. split; [| split; reflexivity].
    unfold jumpWritten, isGrounded, Js.Math_abs.
    cbn [calls refsAt vel pos wasJumpPressed].
    destruct (jumpOf (input t) && negb was && (Rabs (at1 (sub_vel t)) <? 0.5));
      reflexivity.
Qed.

Lemma held_after_latch (ticks : list (Tick I)) :
  forall cam : Camera,
    Forall (fun t => jumpOf (input t) = true) ticks ->
    List.filter jumpWritten (run frame true cam ticks) = [].
Proof using frame_reset frame_active.
  induction ticks as [| t ts IH]; intros cam Hheld; [reflexivity |].
  apply Forall_cons_1 in Hheld. destruct Hheld as [Ht Hts].
  cbn [run List.filter].
  destruct (frame_jump_cases t true cam) as [(_ & Hw & Hwas & _) | (_ & Hw & Hwas & _)];
    rewrite Hw, Hwas.
  - apply IH, Hts.
  - rewrite Ht. cbn [andb negb]. apply IH, Hts.
Qed.

Lemma held_writes_at_most_once (ticks : list (Tick I)) :
  forall (was : bool) (cam : Camera),
    Forall (fun t => jumpOf (input t) = true) ticks ->
    (length (List.filter jumpWritten (run frame was cam ticks)) <= 1)%nat.
Proof using frame_reset frame_active.
  induction ticks as [| t ts IH]; intros was cam Hheld; [simpl; lia |].
  pose proof Hheld as Hall.
  apply Forall_cons_1 in Hheld. destruct Hheld as [Ht Hts].
  destruct was; [rewrite held_after_latch by exact Hall; simpl; lia |].
  cbn [run List.filter].
  destruct (frame_jump_cases t false cam) as [(_ & Hw & Hwas & _) | (_ & Hw & Hwas & _)];
    rewrite Hw, Hwas.
  - apply IH, Hts.
  - rewrite Ht, held_after_latch by exact Hts.
    destruct (true && negb false && (Rabs (at1 (sub_vel t)) <? 0.5)); simpl; lia.
Qed.

Lemma airborne_press_is_lost (t : Tick I) (ts : list (Tick I)) (was : bool) (cam : Camera) :
  Rabs (at1 (sub_vel t)) >= 0.5 -> at1 (sub_pos t) >= -5 ->
  Forall (fun t' => jumpOf (input t') = true) (t :: ts) ->
  List.filter jumpWritten (run frame was cam (t :: ts)) = [].
Proof using frame_reset frame_active.
  intros Hair Hact Hheld.
  apply Forall_cons_1 in Hheld. destruct Hheld as [Ht Hts].
  cbn [run List.filter].
  destruct (frame_jump_cases t was cam) as [(Hy & _) | (_ & Hw & Hwas & _)]; [lra |].
  rewrite Hw, Hwas, Ht, lt_false by lra.
  rewrite andb_false_r. apply held_after_latch, Hts.
Qed.

Lemma stationary_camera (P : vec3) (ticks : list (Tick I)) :
  at1 P >= -5 ->
  forall (was : bool) (cam : Camera),
    Forall (fun t => sub_pos t = P) ticks ->
    let c := lastCamera cam (run frame was cam ticks) in
    at0 (cam_position c) - at0 (cameraTarget P)
    = 0.9 ^ length ticks * (at0 (cam_position cam) - at0 (cameraTarget P)) /\
    at1 (cam_position c) - at1 (cameraTarget P)
    = 0.9 ^ length ticks * (at1 (cam_position cam) - at1 (cameraTarget P)) /\
    at2 (cam_position c) - at2 (cameraTarget P)
    = 0.9 ^ length ticks * (at2 (cam_position cam) - at2 (cameraTarget P)) /\
    (ticks <> [] -> cam_lookAt c = P).
Proof using frame_reset frame_active.
  intros HP. induction ticks as [| t ts IH]; intros was cam Hall.
  - cbn. repeat split; try ring. intros H. congruence.
  - apply Forall_cons_1 in Hall. destruct Hall as [Ht Hts].
    cbn [run length]. unfold lastCamera. cbn [map]. rewrite last_cons_default.
    destruct (frame_jump_cases t was cam) as [(Hy & _) | (_ & _ & Hwas & Hcam)];
      [rewrite Ht in Hy; lra |].
    rewrite Hwas, Hcam.
    specialize (IH (jumpOf (input t)) (followCamera (refsAt t was) cam) Hts).
    unfold lastCamera in IH. cbv zeta in IH.
    destruct IH as (H0 & H1 & H2 & Hl).
    cbv zeta.
    assert (Hstep : forall a b k : R,
               k * (a + (b - a) * 0.1 - b) = 0.9 * k * (a - b)) by (intros; lra).
    split; [| split; [| split]].
    + rewrite H0. unfold followCamera, lerp, cameraTarget, refsAt.
      cbn [pos cam_position at0 at1 at2 pow]. rewrite Ht. apply Hstep.
    + rewrite H1. unfold followCamera, lerp, cameraTarget, refsAt.
      cbn [pos cam_position at0 at1 at2 pow]. rewrite Ht. apply Hstep.
    + rewrite H2. unfold followCamera, lerp, cameraTarget, refsAt.
      cbn [pos cam_position at0 at1 at2 pow]. rewrite Ht. apply Hstep.
    + intros _. destruct ts as [| t' ts'].
      * cbn. rewrite Ht. destruct P; reflexivity.
      * apply Hl. discriminate.
Qed.

End FrameRuns.

(** X10.  One press, at most one jump: over any run of frames (reset
    frames and airborne frames included) during which the jump intent is
    held on every frame, at most one frame writes the jump velocity, and
    none does if jump was already held on the frame before the run. *)
Theorem held_jump_fires_at_most_once
  (was : bool) (cam : Camera)
  (bticks : list (Tick Buttons.Input)) (jticks : list (Tick Joystick.Input)) :
  Forall (fun t => Buttons.jumpIntent (input t) = true) bticks ->
  Forall (fun t => Joystick.jumpIntent (input t) = true) jticks ->
  (length (List.filter jumpWritten (run Buttons.useFrame was cam bticks)) <= 1)%nat /\
  (length (List.filter jumpWritten (run Joystick.useFrame was cam jticks)) <= 1)%nat /\
  (was = true ->
   List.filter jumpWritten (run Buttons.useFrame was cam bticks) = [] /\
   List.filter jumpWritten (run Joystick.useFrame was cam jticks) = []).
Proof.
  intros Hb Hj. split; [| split].
  - exact (held_writes_at_most_once _ _ _ _ Buttons_useFrame_reset
             Buttons_useFrame_active bticks was cam Hb).
  - exact (held_writes_at_most_once _ _ _ _ Joystick_useFrame_reset
             Joystick_useFrame_active jticks was cam Hj).
  - intros ->. split.
    + exact (held_after_latch _ _ _ _ Buttons_useFrame_reset
               Buttons_useFrame_active bticks cam Hb).
    + exact (held_after_latch _ _ _ _ Joystick_useFrame_reset
               Joystick_useFrame_active jticks cam Hj).
Qed.

Lemma held_jump_fires_at_most_once_witness :
  let cam := MkCamera (V3 0 5 10) (V3 0 0 0) in
  let none := MkControls false false false false false in
  let bt (py vy : R) :=
    MkTick (Buttons.MkInput (MkControls false false false false true) none)
           (∅ : table) (V3 0 py 0) (V3 0 vy 0) in
  let jt (py vy : R) :=
    MkTick (Joystick.MkInput none (Joystick.V2 0 0) true)
           (∅ : table) (V3 0 py 0) (V3 0 vy 0) in
  let bts := [bt (-6) (-9); bt 5 0; bt 4 (-3); bt 0.75 0] in
  let jts := [jt (-6) (-9); jt 5 0; jt 4 (-3); jt 0.75 0] in
  (length (List.filter jumpWritten (run Buttons.useFrame false cam bts)) <= 1)%nat /\
  (length (List.filter jumpWritten (run Joystick.useFrame false cam jts)) <= 1)%nat.
Proof.
  intros cam none bt jt bts jts.
  assert (Hb : Forall (fun t => Buttons.jumpIntent (input t) = true)
                      [bt (-6) (-9); bt 5 0; bt 4 (-3); bt 0.75 0])
    by (repeat constructor).
  assert (Hj : Forall (fun t => Joystick.jumpIntent (input t) = true)
                      [jt (-6) (-9); jt 5 0; jt 4 (-3); jt 0.75 0])
    by (repeat constructor).
  destruct (held_jump_fires_at_most_once false cam _ _ Hb Hj) as (H1 & H2 & _).
  split; [exact H1 | exact H2].
Defined.

(** X11.  There is no jump buffering: a press that begins on an airborne
    frame ([|vy| >= 0.5], no reset) and is held from then on never
    produces a jump, however long it is held and even after the player
    has landed, because the airborne frame already latches the press. *)
Theorem airborne_press_never_jumps
  (was : bool) (cam : Camera)
  (bt : Tick Buttons.Input) (bts : list (Tick Buttons.Input))
  (jt : Tick Joystick.Input) (jts : list (Tick Joystick.Input)) :
  Rabs (at1 (sub_vel bt)) >= 0.5 -> at1 (sub_pos bt) >= -5 ->
  Rabs (at1 (sub_vel jt)) >= 0.5 -> at1 (sub_pos jt) >= -5 ->
  Forall (fun t => Buttons.jumpIntent (input t) = true) (bt :: bts) ->
  Forall (fun t => Joystick.jumpIntent (input t) = true) (jt :: jts) ->
  List.filter jumpWritten (run Buttons.useFrame was cam (bt :: bts)) = [] /\
  List.filter jumpWritten (run Joystick.useFrame was cam (jt :: jts)) = [].
Proof.
  intros Hbv Hbp Hjv Hjp Hb Hj. split.
  - exact (airborne_press_is_lost _ _ _ _ Buttons_useFrame_reset
             Buttons_useFrame_active bt bts was cam Hbv Hbp Hb).
  - exact (airborne_press_is_lost _ _ _ _ Joystick_useFrame_reset
             Joystick_useFrame_active jt jts was cam Hjv Hjp Hj).
Qed.

Lemma airborne_press_never_jumps_witness :
  let cam := MkCamera (V3 0 5 10) (V3 0 0 0) in
  let none := MkControls false false false false false in
  let bt (py vy : R) :=
    MkTick (Buttons.MkInput (MkControls false false false false true) none)
           (∅ : table) (V3 0 py 0) (V3 0 vy 0) in
  let jt (py vy : R) :=
    MkTick (Joystick.MkInput none (Joystick.V2 0 0) true)
           (∅ : table) (V3 0 py 0) (V3 0 vy 0) in
  List.filter jumpWritten
    (run Buttons.useFrame false cam [bt 2 (-4); bt 0.75 0; bt 0.75 0]) = [] /\
  List.filter jumpWritten
    (run Joystick.useFrame false cam [jt 2 (-4); jt 0.75 0; jt 0.75 0]) = [].
Proof.
  intros cam none bt jt.
  assert (Hv : Rabs (-4) >= 0.5) by (rewrite Rabs_left by lra; lra).
  assert (Hp : 2 >= -5) by lra.
  exact (airborne_press_never_jumps false cam
           (bt 2 (-4)) [bt 0.75 0; bt 0.75 0] (jt 2 (-4)) [jt 0.75 0; jt 0.75 0]
           Hv Hp Hv Hp
           ltac:(repeat constructor) ltac:(repeat constructor)).
Defined.

(** ** The camera *)

(** X12.  While the player stands still (same position on every frame,
    no reset) the camera closes in on the point 5 above and 10 behind
    the player geometrically: after [n] frames each coordinate of its
    distance to that point is [0.9 ^ n] times what it was, and from
    the first frame on it is aimed at the player. *)
Theorem camera_closes_in_geometrically
  (P : vec3) (was : bool) (cam : Camera)
  (bticks : list (Tick Buttons.Input)) (jticks : list (Tick Joystick.Input)) :
  at1 P >= -5 ->
  Forall (fun t => sub_pos t = P) bticks ->
  Forall (fun t => sub_pos t = P) jticks ->
  (let c := lastCamera cam (run Buttons.useFrame was cam bticks) in
   at0 (cam_position c) - at0 (cameraTarget P)
   = 0.9 ^ length bticks * (at0 (cam_position cam) - at0 (cameraTarget P)) /\
   at1 (cam_position c) - at1 (cameraTarget P)
   = 0.9 ^ length bticks * (at1 (cam_position cam) - at1 (cameraTarget P)) /\
   at2 (cam_position c) - at2 (cameraTarget P)
   = 0.9 ^ length bticks * (at2 (cam_position cam) - at2 (cameraTarget P)) /\
   (bticks <> [] -> cam_lookAt c = P)) /\
  (let c := lastCamera cam (run Joystick.useFrame was cam jticks) in
   at0 (cam_position c) - at0 (cameraTarget P)
   = 0.9 ^ length jticks * (at0 (cam_position cam) - at0 (cameraTarget P)) /\
   at1 (cam_position c) - at1 (cameraTarget P)
   = 0.9 ^ length jticks * (at1 (cam_position cam) - at1 (cameraTarget P)) /\
   at2 (cam_position c) - at2 (cameraTarget P)
   = 0.9 ^ length jticks * (at2 (cam_position cam) - at2 (cameraTarget P)) /\
   (jticks <> [] -> cam_lookAt c = P)).
Proof.
  intros HP Hb Hj. split.
  - exact (stationary_camera _ _ _ _ Buttons_useFrame_reset Buttons_useFrame_active
             P bticks HP was cam Hb).
  - exact (stationary_camera _ _ _ _ Joystick_useFrame_reset Joystick_useFrame_active
             P jticks HP was cam Hj).
Qed.

Lemma camera_closes_in_geometrically_witness :
  let P := V3 0 0.75 (-10) in
  let cam := MkCamera (V3 0 0 0) (V3 0 0 0) in
  let none := MkControls false false false false false in
  let bt := MkTick (Buttons.MkInput none none) (∅ : table) P (V3 0 0 0) in
  let c := lastCamera cam (run Buttons.useFrame false cam [bt; bt]) in
  at2 (cam_position c) - at2 (cameraTarget P)
  = 0.9 ^ 2 * (at2 (cam_position cam) - at2 (cameraTarget P)) /\
  cam_lookAt c = P.
Proof.
  intros P cam none bt c.
  assert (HP : at1 P >= -5) by (simpl; lra).
  destruct (proj1 (camera_closes_in_geometrically P false cam [bt; bt] []
                     HP ltac:(repeat constructor) ltac:(constructor)))
    as (_ & _ & H2 & Hl).
  split; [exact H2 | apply Hl; discriminate].
Defined.

(** ** The joystick widget *)

Lemma sqrt_le_one (s : R) : 0 <= s <= 1 -> sqrt s <= 1.
Proof. intros H. rewrite <- sqrt_1. apply sqrt_le_1_alt. lra. Qed.

Lemma handlePointerMove_cases (rect : Widget.DOMRect) (e : Widget.PointerEvent) :
  0 < Widget.rect_width rect ->
  let rawX := Widget.clientX e - (Widget.rect_left rect + Widget.rect_width rect / 2) in
  let rawY := Widget.clientY e - (Widget.rect_top rect + Widget.rect_height rect / 2) in
  let distance := sqrt (rawX * rawX + rawY * rawY) in
  let maxRadius := Widget.rect_width rect / 2 in
  let s := Widget.handlePointerMove rect e in
  Joystick.x (Widget.vector s) = Joystick.x (Widget.thumb s) / maxRadius /\
  Joystick.y (Widget.vector s) = Joystick.y (Widget.thumb s) / maxRadius /\
  ((distance <= maxRadius /\
    Widget.thumb s = Joystick.V2 rawX rawY /\
    Joystick.x (Widget.thumb s) * Joystick.x (Widget.thumb s)
    + Joystick.y (Widget.thumb s) * Joystick.y (Widget.thumb s) = distance * distance) \/
   (maxRadius < distance /\
    Widget.thumb s
    = Joystick.V2 (rawX * (maxRadius / distance)) (rawY * (maxRadius / distance)) /\
    Joystick.x (Widget.thumb s) * Joystick.x (Widget.thumb s)
    + Joystick.y (Widget.thumb s) * Joystick.y (Widget.thumb s) = maxRadius * maxRadius)).
Proof.
  intros Hw rawX rawY distance maxRadius s.
  assert (Hpos : 0 <= distance) by apply sqrt_pos.
  assert (Hsq : distance * distance = rawX * rawX + rawY * rawY)
    by (apply sqrt_sqrt; nra).
  unfold s, Widget.handlePointerMove, Js.Math_sqrt, Js.gt, Js.lt. cbv zeta.
  fold rawX rawY. fold distance. fold maxRadius.
  cbn [Widget.vector Widget.thumb Joystick.x Joystick.y].
  split; [reflexivity |]. split; [reflexivity |].
  destruct (Rlt_dec maxRadius distance) as [Hout | Hin].
  - right. split; [exact Hout |]. split; [reflexivity |].
    assert (0 < maxRadius) by (unfold maxRadius; lra).
    transitivity (maxRadius * maxRadius * (rawX * rawX + rawY * rawY)
                  / (distance * distance)); [field; lra |].
    rewrite <- Hsq. field. lra.
  - left. split; [lra |]. split; [reflexivity |]. symmetry. exact Hsq.
Qed.

Lemma joystick_vector_in_disk
  (rect : Widget.DOMRect) (e : Widget.PointerEvent) :
  0 < Widget.rect_width rect ->
  let rawX := Widget.clientX e - (Widget.rect_left rect + Widget.rect_width rect / 2) in
  let rawY := Widget.clientY e - (Widget.rect_top rect + Widget.rect_height rect / 2) in
  let maxRadius := Widget.rect_width rect / 2 in
  let s := Widget.handlePointerMove rect e in
  Joystick.x (Widget.vector s) * Joystick.x (Widget.vector s)
  + Joystick.y (Widget.vector s) * Joystick.y (Widget.vector s) <= 1 /\
  Joystick.x (Widget.thumb s) * Joystick.x (Widget.thumb s)
  + Joystick.y (Widget.thumb s) * Joystick.y (Widget.thumb s) <= maxRadius * maxRadius /\
  (sqrt (rawX * rawX + rawY * rawY) <= maxRadius ->
   Widget.thumb s = Joystick.V2 rawX rawY /\
   Widget.vector s = Joystick.V2 (rawX / maxRadius) (rawY / maxRadius)) /\
  (maxRadius < sqrt (rawX * rawX + rawY * rawY) ->
   Joystick.x (Widget.vector s) * Joystick.x (Widget.vector s)
   + Joystick.y (Widget.vector s) * Joystick.y (Widget.vector s) = 1 /\
   exists c : R,
     0 < c < 1 /\ Widget.thumb s = Joystick.V2 (rawX * c) (rawY * c)).
Proof.
  intros Hw rawX rawY maxRadius s.
  destruct (handlePointerMove_cases rect e Hw) as (Hx & Hy & Hcases).
  fold rawX rawY maxRadius s in Hx, Hy, Hcases.
  set (distance := sqrt (rawX * rawX + rawY * rawY)) in *.
  assert (Hr : 0 < maxRadius) by (unfold maxRadius; lra).
  assert (Hpos : 0 <= distance) by apply sqrt_pos.
  assert (Hvec : forall q : R,
             Joystick.x (Widget.thumb s) * Joystick.x (Widget.thumb s)
             + Joystick.y (Widget.thumb s) * Joystick.y (Widget.thumb s) = q ->
             Joystick.x (Widget.vector s) * Joystick.x (Widget.vector s)
             + Joystick.y (Widget.vector s) * Joystick.y (Widget.vector s)
             = q / (maxRadius * maxRadius)).
  { intros q <-. rewrite Hx, Hy. field. lra. }
  assert (Hone : maxRadius * maxRadius / (maxRadius * maxRadius) = 1) by (field; lra).
  destruct Hcases as [(Hin & Ht & Hq) | (Hout & Ht & Hq)].
  - split; [| split; [| split]].
    + rewrite (Hvec _ Hq). apply Rmult_le_reg_r with (r := maxRadius * maxRadius); [nra |].
      unfold Rdiv. rewrite Rmult_assoc, Rinv_l by nra. nra.
    + rewrite Hq. nra.
    + intros _. split; [exact Ht |].
      destruct (Widget.vector s) as [vx vy]. cbn [Joystick.x Joystick.y] in Hx, Hy.
      rewrite Hx, Hy, Ht. reflexivity.
    + intros H. lra.
  - split; [| split; [| split]].
    + rewrite (Hvec _ Hq), Hone. lra.
    + rewrite Hq. lra.
    + intros H. lra.
    + intros _. split; [rewrite (Hvec _ Hq); exact Hone |].
      exists (maxRadius / distance). split; [| exact Ht].
      split.
      * apply Rdiv_lt_0_compat; lra.
      * apply Rmult_lt_reg_r with (r := distance); [lra |].
        unfold Rdiv. rewrite Rmult_assoc, Rinv_l by lra. lra.
Qed.




Lemma keyAxes_idle (k : Controls) (v : Joystick.vec2) (b : bool) :
  left k = false -> right k = false -> forward k = false -> backward k = false ->
  Joystick.intent (Joystick.MkInput k v b) = (Joystick.x v, Joystick.y v).
Proof.
  intros Hl Hr Hf Hb. unfold Joystick.intent, Joystick.keyAxes, Js.neq0. cbv zeta.
  cbn [Joystick.keyboard Joystick.joystickVector fst snd].
  rewrite Hl, Hr, Hf, Hb. cbn [Js.cond].
  destruct (Req_dec_T (0 + 0) 0) as [_ | H]; [reflexivity | lra].
Qed.

Lemma steerCommand_in_disk (inputX inputZ : R) :
  inputX * inputX + inputZ * inputZ <= 1 ->
  steerCommand inputX inputZ = (inputX * 6, inputZ * 6).
Proof.
  intros H. unfold steerCommand, moveSpeed. cbv zeta.
  rewrite gt_false; [reflexivity |].
  apply sqrt_le_one. split; [nra | exact H].
Qed.

(** X14.  With no direction key held, the stick alone steers, and
    linearly: for the vector left by a pointer move on a base of
    positive width the steering part of the command is exactly 6 times
    that vector (it is never renormalised, the widget having clamped
    it), and after the pointer is released it is zero. *)
Theorem stick_alone_steers_linearly
  (rect : Widget.DOMRect) (e : Widget.PointerEvent)
  (k : Controls) (touchJump : bool) (m : table) (r : Refs) (cam : Camera) :
  0 < Widget.rect_width rect ->
  left k = false -> right k = false -> forward k = false -> backward k = false ->
  at1 (pos r) >= -5 ->
  let v := Widget.vector (Widget.handlePointerMove rect e) in
  hd_error (calls (Joystick.useFrame (Joystick.MkInput k v touchJump) m r cam))
  = Some (velocity_set (Joystick.x v * 6 + rideExtraX m r) (at1 (vel r))
                       (Joystick.y v * 6)) /\
  hd_error (calls (Joystick.useFrame
                     (Joystick.MkInput k (Widget.vector Widget.handlePointerUp) touchJump)
                     m r cam))
  = Some (velocity_set (0 * 6 + rideExtraX m r) (at1 (vel r)) (0 * 6)).
Proof.
  intros Hw Hl Hr Hf Hb Hy v. apply Rge_le in Hy.
  pose proof (proj1 (joystick_vector_in_disk rect e Hw)) as Hdisk. fold v in Hdisk.
  rewrite !Joystick_useFrame_active by exact Hy. cbn [calls hd_error].
  rewrite !Joystick_direction_steerCommand.
  rewrite (keyAxes_idle k v touchJump Hl Hr Hf Hb).
  rewrite (keyAxes_idle k (Widget.vector Widget.handlePointerUp) touchJump Hl Hr Hf Hb).
  cbn [fst snd]. rewrite steerCommand_in_disk by exact Hdisk.
  cbn [Widget.handlePointerUp Widget.vector Joystick.x Joystick.y].
  rewrite steerCommand_in_disk by lra.
  split; reflexivity.
Qed.

Lemma stick_alone_steers_linearly_witness :
  let rect := Widget.MkRect 50 600 120 120 in
  let e := Widget.MkPointer 140 660 in
  let none := MkControls false false false false false in
  let r := MkRefs (V3 0 0.25 0) (V3 0 0 0) false in
  let cam := MkCamera (V3 0 5 10) (V3 0 0 0) in
  let v := Widget.vector (Widget.handlePointerMove rect e) in
  hd_error (calls (Joystick.useFrame (Joystick.MkInput none v false) ∅ r cam))
  = Some (velocity_set (Joystick.x v * 6 + rideExtraX ∅ r) (at1 (vel r))
                       (Joystick.y v * 6)).
Proof.
  intros rect e none r cam v.
  refine (proj1 (stick_alone_steers_linearly rect e none false ∅ r cam
                   _ eq_refl eq_refl eq_refl eq_refl _)).
  - simpl. lra.
  - simpl. lra.
Defined.

(** ** The touch buttons *)

Lemma Key_eqb_eq (a b : Touch.Key) : Touch.Key_eqb a b = true <-> a = b.
Proof. destruct a, b; simpl; split; intros H; try reflexivity; discriminate. Qed.

Lemma get_handlePress_same (k : Touch.Key) (b : bool) (mi : Controls) :
  Touch.get k (Touch.handlePress k b mi) = b.
Proof. destruct k; reflexivity. Qed.

Lemma get_handlePress_other (k k' : Touch.Key) (b : bool) (mi : Controls) :
  k <> k' -> Touch.get k' (Touch.handlePress k b mi) = Touch.get k' mi.
Proof. intros H. destruct k, k'; try reflexivity; contradiction. Qed.

Lemma get_onPointer_other (k k' : Touch.Key) (ev : Touch.Pointer) (mi : Controls) :
  k <> k' -> Touch.get k' (Touch.onPointer k ev mi) = Touch.get k' mi.
Proof.
  intros H. destruct ev; cbn [Touch.onPointer];
    try (apply get_handlePress_other; exact H).
  destruct k; try (apply get_handlePress_other; exact H). reflexivity.
Qed.

Lemma get_onPointer_congr (k k' : Touch.Key) (ev : Touch.Pointer) (mi mi' : Controls) :
  Touch.get k' mi = Touch.get k' mi' ->
  Touch.get k' (Touch.onPointer k ev mi) = Touch.get k' (Touch.onPointer k ev mi').
Proof.
  intros H. destruct (Touch.Key_eqb k k') eqn:E.
  - apply Key_eqb_eq in E. subst k'.
    destruct ev; cbn [Touch.onPointer]; rewrite ?get_handlePress_same; try reflexivity.
    destruct k; rewrite ?get_handlePress_same; try reflexivity. exact H.
  - assert (k <> k') by (intros ->; destruct k'; discriminate).
    rewrite !get_onPointer_other by assumption. exact H.
Qed.

Lemma dispatch_snoc (events : list (Touch.Key * Touch.Pointer))
  (k : Touch.Key) (ev : Touch.Pointer) (mi : Controls) :
  Touch.dispatch (events ++ [(k, ev)]) mi = Touch.onPointer k ev (Touch.dispatch events mi).
Proof. unfold Touch.dispatch. rewrite foldl_app. reflexivity. Qed.

Lemma dispatch_own_events (k : Touch.Key) (events : list (Touch.Key * Touch.Pointer)) :
  forall mi mi' : Controls,
    Touch.get k mi = Touch.get k mi' ->
    Touch.get k (Touch.dispatch events mi)
    = Touch.get k
        (Touch.dispatch (List.filter (fun ke => Touch.Key_eqb (fst ke) k) events) mi').
Proof.
  induction events as [| [k0 ev] events IH]; intros mi mi' H; [exact H |].
  unfold Touch.dispatch in *. cbn [foldl List.filter fst snd].
  destruct (Touch.Key_eqb k0 k) eqn:E.
  - cbn [foldl fst snd]. apply IH. apply get_onPointer_congr, H.
  - apply IH. rewrite get_onPointer_other; [exact H |].
    intros ->. destruct k; discriminate.
Qed.

(** X15.  Each touch flag follows the pointer events of its own button
    only.  After any sequence of events a flag is what it would be had
    the other buttons' events never happened; a pointer-down sets it, a
    pointer-up clears it, and a pointer-leave clears a direction flag
    but leaves the jump flag as it was, the jump button having no leave
    handler. *)
Theorem touch_flags_follow_their_own_button
  (events : list (Touch.Key * Touch.Pointer)) (mi : Controls) (k : Touch.Key) :
  Touch.get k (Touch.dispatch events mi)
  = Touch.get k
      (Touch.dispatch (List.filter (fun ke => Touch.Key_eqb (fst ke) k) events) mi) /\
  Touch.get k (Touch.dispatch (events ++ [(k, Touch.PointerDown)]) mi) = true /\
  Touch.get k (Touch.dispatch (events ++ [(k, Touch.PointerUp)]) mi) = false /\
  (k <> Touch.Kjump ->
   Touch.get k (Touch.dispatch (events ++ [(k, Touch.PointerLeave)]) mi) = false) /\
  Touch.dispatch (events ++ [(Touch.Kjump, Touch.PointerLeave)]) mi
  = Touch.dispatch events mi.
Proof.
  split; [apply dispatch_own_events; reflexivity |].
  rewrite !dispatch_snoc. cbn [Touch.onPointer].
  rewrite !get_handlePress_same.
  split; [reflexivity |]. split; [reflexivity |]. split; [| reflexivity].
  intros H. destruct k; try apply get_handlePress_same. contradiction.
Qed.

Lemma touch_flags_follow_their_own_button_witness :
  let none := MkControls false false false false false in
  Touch.get Touch.Kleft
    (Touch.dispatch [(Touch.Kleft, Touch.PointerDown); (Touch.Kjump, Touch.PointerDown);
                     (Touch.Kleft, Touch.PointerLeave)] none) = false.
Proof.
  intros none.
  refine (proj1 (proj2 (proj2 (proj2
    (touch_flags_follow_their_own_button
       [(Touch.Kleft, Touch.PointerDown); (Touch.Kjump, Touch.PointerDown)]
       none Touch.Kleft)))) _).
  discriminate.
Defined.

(** ** Reset frames in a run; stale entries in the table *)

Section ResetRuns.

Variable I : Type.
Variable frame : I -> table -> Refs -> Camera -> FrameOut.

Hypothesis frame_reset :
  forall (i : I) (m : table) (r : Refs) (cam : Camera),
    at1 (pos r) < -5 ->
    frame i m r cam = MkFrameOut [position_set 0 5 0; velocity_set 0 0 0] r cam.

Lemma run_through_resets (rs ts : list (Tick I)) (was : bool) (cam : Camera) :
  Forall (fun t => at1 (sub_pos t) < -5) rs ->
  run frame was cam (rs ++ ts)
  = map (fun t => MkFrameOut [position_set 0 5 0; velocity_set 0 0 0] (refsAt t was) cam) rs
    ++ run frame was cam ts.
Proof using frame_reset.
  induction rs as [| t rs IH]; intros Hrs; [reflexivity |].
  apply Forall_cons_1 in Hrs. destruct Hrs as [Ht Hrs].
  cbn [app run map]. rewrite frame_reset by exact Ht.
  cbn [refs' camera' wasJumpPressed refsAt]. rewrite IH by exact Hrs. reflexivity.
Qed.

End ResetRuns.

(** X16.  Reset frames are invisible to what follows: during a stretch
    of frames with [py < -5] every frame re-issues the same two reset
    commands, and the frames after the stretch behave exactly as if it
    had not happened (same edge detector, same camera). *)
Theorem run_resumes_after_resets
  (was : bool) (cam : Camera)
  (brs bts : list (Tick Buttons.Input)) (jrs jts : list (Tick Joystick.Input)) :
  Forall (fun t => at1 (sub_pos t) < -5) brs ->
  Forall (fun t => at1 (sub_pos t) < -5) jrs ->
  run Buttons.useFrame was cam (brs ++ bts)
  = map (fun t => MkFrameOut [position_set 0 5 0; velocity_set 0 0 0] (refsAt t was) cam) brs
    ++ run Buttons.useFrame was cam bts /\
  run Joystick.useFrame was cam (jrs ++ jts)
  = map (fun t => MkFrameOut [position_set 0 5 0; velocity_set 0 0 0] (refsAt t was) cam) jrs
    ++ run Joystick.useFrame was cam jts.
Proof.
  intros Hb Hj. split.
  - exact (run_through_resets _ _ Buttons_useFrame_reset brs bts was cam Hb).
  - exact (run_through_resets _ _ Joystick_useFrame_reset jrs jts was cam Hj).
Qed.

Lemma run_resumes_after_resets_witness :
  let cam := MkCamera (V3 0 5 10) (V3 0 0 0) in
  let none := MkControls false false false false false in
  let bt (py : R) :=
    MkTick (Buttons.MkInput (MkControls false false false false true) none)
           (∅ : table) (V3 0 py 0) (V3 0 0 0) in
  run Buttons.useFrame false cam ([bt (-6); bt (-7)] ++ [bt 5])
  = map (fun t => MkFrameOut [position_set 0 5 0; velocity_set 0 0 0] (refsAt t false) cam)
        [bt (-6); bt (-7)]
    ++ run Buttons.useFrame false cam [bt 5].
Proof.
  intros cam none bt.
  assert (Hb : Forall (fun t : Tick Buttons.Input => at1 (sub_pos t) < -5)
                      [bt (-6); bt (-7)])
    by (repeat constructor; simpl; lra).
  exact (proj1 (run_resumes_after_resets false cam [bt (-6); bt (-7)] [bt 5] [] []
                  Hb ltac:(constructor))).
Defined.

Lemma platformsFrame_lookup_outside (random : nat -> R) (elapsed : R) (m : table) (k : Z) :
  ~ (0 <= k <= 9)%Z -> Scene.platformsFrame random elapsed m !! k = m !! k.
Proof.
  intros Hk. unfold Scene.platformsFrame. apply foldl_frames_lookup_other.
  rewrite movingPlatforms_indices. simpl. intuition lia.
Qed.

(** X17.  No stale velocity survives a frame: after all platforms have
    run their frame at clock reading [t], the table is the same whatever
    it held before, namely the ten velocities of that reading. *)
Theorem platforms_frame_overwrites_table
  (random : nat -> R) (t : R) (m : table) :
  Scene.reachable random m ->
  Scene.platformsFrame random t m = Scene.platformsFrame random t ∅ /\
  (forall i : nat,
     (i < 10)%nat ->
     Scene.platformsFrame random t m !! Z.of_nat i
     = Some (Scene.platformVx
               (Scene.MkProps (Z.of_nat i) (Scene.platformAt random i)) t)).
Proof.
  intros Hm. split.
  - apply map_eq. intros k.
    destruct (decide (0 <= k <= 9)%Z) as [Hk | Hk].
    + assert (Hp : Scene.MkProps (Z.of_nat (Z.to_nat k))
                                 (Scene.platformAt random (Z.to_nat k))
                   ∈ Scene.movingPlatforms random) by (apply mounted_intro; lia).
      pose proof (platformsFrame_lookup random t m _ Hp) as H1.
      pose proof (platformsFrame_lookup random t ∅ _ Hp) as H2.
      cbn [Scene.index] in H1, H2. rewrite Z2Nat.id in H1, H2 by lia.
      rewrite H1, H2. reflexivity.
    + rewrite !platformsFrame_lookup_outside by exact Hk.
      rewrite lookup_empty.
      destruct (m !! k) as [v |] eqn:E; [| reflexivity].
      exfalso. apply Hk. apply (reachable_keys random m Hm). rewrite E. eauto.
  - intros i Hi.
    exact (platformsFrame_lookup random t m _ (mounted_intro random i Hi)).
Qed.

Lemma platforms_frame_overwrites_table_witness :
  let random := fun _ : nat => 0.5 in
  Scene.platformsFrame random 3 (Scene.platformsFrame random 1 ∅)
  = Scene.platformsFrame random 3 ∅.
Proof.
  intros random.
  refine (proj1 (platforms_frame_overwrites_table random 3
                   (Scene.platformsFrame random 1 ∅) _)).
  apply platformsFrame_reachable, Scene.reach_new.
Defined.
